(** * CKPI Multi-KPI Analyzer: the extrema detector, the per-group
      aggregation and the actionable-insight report of [app.py]

    The numeric columns of the program are numpy [float64] arrays, so the
    values are Rocq's primitive binary64 floats: missing entries are NaN,
    comparisons are the IEEE ones (false on NaN) and the arithmetic rounds to
    nearest even, exactly as the interpreter does. *)

From Stdlib Require Import ZArith List Bool Lia Floats Ascii String.
From stdpp Require Import gmap strings list fin_maps sorting.

Set Warnings "-inexact-float".

(** Python writes [b > a]; the primitive comparison is [a <? b]. *)
Notation "x >? y" := (PrimFloat.ltb y x) (at level 70, no associativity) : float_scope.

(** Python converts an [int] operand of a float operation to the nearest
    double; the counts of this program are list lengths, far below 2^53, where
    the conversion is exact. *)
Definition of_int (n : nat) : float :=
  PrimFloat.of_uint63 (Uint63.of_Z (Z.of_nat n)).

(** ** numpy: the reductions used by the detector *)

Module np.

Definition isnan (x : float) : bool := PrimFloat.is_nan x.

(** [np.isnan(arr).all()] *)
Definition isnan_all (arr : list float) : bool := forallb isnan arr.

(** [np.sum] on a one-dimensional [float64] array is [np.add.reduce]: the
    result starts at the identity 0 and the inner loop adds to it the value
    of numpy's [DOUBLE_pairwise_sum] on the whole array. (Some numpy releases
    start from -0.0 instead; this changes only the sign of a zero sum, which
    no comparison of the detector observes.) *)

(** [res += a[i]] over the elements of [a], in order *)
Definition accumulate (res : float) (a : list float) : float :=
  fold_left PrimFloat.add a res.

(** the eight accumulators [r[0]], ..., [r[7]] of the unrolled loop *)
Record Lanes : Type := mkLanes {
  r0 : float; r1 : float; r2 : float; r3 : float;
  r4 : float; r5 : float; r6 : float; r7 : float
}.

(** [for (i = 8; i < n - (n % 8); i += 8) r[k] += a[i + k]], on the elements
    after the first eight: the loop runs while eight elements are left, and
    returns the accumulators with the elements it did not reach (fewer than
    eight). *)
Fixpoint unrolled (r : Lanes) (a : list float) : Lanes * list float :=
  match a with
  | a0 :: a1 :: a2 :: a3 :: a4 :: a5 :: a6 :: a7 :: rest =>
    unrolled
      (mkLanes (r0 r + a0) (r1 r + a1) (r2 r + a2) (r3 r + a3)
               (r4 r + a4) (r5 r + a5) (r6 r + a6) (r7 r + a7))%float
      rest
  | _ => (r, a)
  end.

(** The branches [n < 8] and [n <= PW_BLOCKSIZE] (128): fewer than eight
    values are added to 0 from left to right; otherwise the first eight
    values start eight accumulators, the unrolled loop adds the following
    groups of eight, the accumulators are added in pairs and the remaining
    values are added one by one. *)
Definition block_sum (a : list float) : float :=
  match a with
  | a0 :: a1 :: a2 :: a3 :: a4 :: a5 :: a6 :: a7 :: rest =>
    let '(r, tail) := unrolled (mkLanes a0 a1 a2 a3 a4 a5 a6 a7) rest in
    accumulate
      (((r0 r + r1 r) + (r2 r + r3 r)) + ((r4 r + r5 r) + (r6 r + r7 r)))%float
      tail
  | _ => accumulate 0%float a
  end.

(** [DOUBLE_pairwise_sum(a, n, stride)]: above 128 values the array is cut
    at [n2 = n / 2 - (n / 2) % 8] and the sums of the two parts are added.
    The recursion is on a counter that the length of the array bounds (each
    part is shorter than the whole). *)
Fixpoint pairwise_sum (fuel : nat) (a : list float) : float :=
  let n := length a in
  match fuel with
  | O => block_sum a
  | S fuel =>
    if (n <=? 128)%nat then block_sum a
    else
      let n2 := (n / 2 - (n / 2) mod 8)%nat in
      (pairwise_sum fuel (firstn n2 a) + pairwise_sum fuel (skipn n2 a))%float
  end.

Definition sum (arr : list float) : float :=
  (0 + pairwise_sum (length arr) arr)%float.

(** [_replace_nan(arr, 0)] *)
Definition replace_nan (arr : list float) : list float :=
  map (fun x => if isnan x then 0%float else x) arr.

(** [np.sum(~mask)]: the number of non-NaN entries (an integer) *)
Definition count (arr : list float) : nat :=
  length (List.filter (fun x => negb (isnan x)) arr).

(** [np.nanmean] *)
Definition nanmean (arr : list float) : float :=
  (sum (replace_nan arr) / of_int (count arr))%float.

(** [np.nanvar] with [ddof = 0]: deviations from the mean, NaN positions
    set to 0, squared, summed and divided by the count. *)
Definition nanvar (arr : list float) : float :=
  let avg := nanmean arr in
  let dev := map (fun x => if isnan x then 0%float else (x - avg)%float) arr in
  let sqr := map (fun d => (d * d)%float) dev in
  (sum sqr / of_int (count arr))%float.

(** [np.nanstd] *)
Definition nanstd (arr : list float) : float := PrimFloat.sqrt (nanvar arr).

End np.

(** ** The extrema detector *)

(** [arr[i]]; the loop below only reads positions inside the array. *)
Definition getitem (arr : list float) (i : nat) : float := nth i arr nan.

(** [high_thresh is not None and b > high_thresh] *)
Definition above (thresh : option float) (b : float) : bool :=
  match thresh with
  | Some h => (b >? h)%float
  | None => false
  end.

(** [low_thresh is not None and b < low_thresh] *)
Definition below (thresh : option float) (b : float) : bool :=
  match thresh with
  | Some l => (b <? l)%float
  | None => false
  end.

Section DetectLoop.

Variable arr : list float.
Variables low_thresh high_thresh : option float.
Variables upper_stat lower_stat : float.

(** the condition of line 52, for a centre [i] that passed the NaN tests *)
Definition peak_cond (i : nat) : bool :=
  let a := getitem arr (i - 1) in
  let b := getitem arr i in
  let c := getitem arr (i + 1) in
  (b >? a)%float && (b >? c)%float
    && (above high_thresh b || (b >? upper_stat)%float).

(** the condition of line 54 *)
Definition low_cond (i : nat) : bool :=
  let a := getitem arr (i - 1) in
  let b := getitem arr i in
  let c := getitem arr (i + 1) in
  (b <? a)%float && (b <? c)%float
    && (below low_thresh b || (b <? lower_stat)%float).

(** one iteration of the [for] loop on the pair [(peaks, lows)] *)
Definition detect_step (acc : list nat * list nat) (i : nat)
  : list nat * list nat :=
  let '(peaks, lows) := acc in
  let a := getitem arr (i - 1) in
  let b := getitem arr i in
  let c := getitem arr (i + 1) in
  if np.isnan b then (peaks, lows)
  else if negb (np.isnan a) && negb (np.isnan c) then
    let peaks := if peak_cond i then peaks ++ [i] else peaks in
    let lows := if low_cond i then lows ++ [i] else lows in
    (peaks, lows)
  else (peaks, lows).

(** the iterations that append to [peaks], and those that append to [lows] *)
Definition reports_peak (i : nat) : bool :=
  negb (np.isnan (getitem arr i))
    && (negb (np.isnan (getitem arr (i - 1)))
          && negb (np.isnan (getitem arr (i + 1))))
    && peak_cond i.

Definition reports_low (i : nat) : bool :=
  negb (np.isnan (getitem arr i))
    && (negb (np.isnan (getitem arr (i - 1)))
          && negb (np.isnan (getitem arr (i + 1))))
    && low_cond i.

End DetectLoop.

(** [range(1, n-1)] *)
Definition interior (n : nat) : list nat := seq 1 (n - 2).

Definition detect_peaks_lows (values : list float)
    (low_thresh high_thresh : option float) (std_factor : float)
  : list nat * list nat :=
  let arr := values in
  let n := length arr in
  if (n <? 3)%nat || np.isnan_all arr then ([], [])
  else
    let mean := np.nanmean arr in
    let std := np.nanstd arr in
    let upper_stat := (mean + std_factor * std)%float in
    let lower_stat := (mean - std_factor * std)%float in
    fold_left (detect_step arr low_thresh high_thresh upper_stat lower_stat)
      (interior n) ([], []).


(** ** The threshold catalogue *)

(** [str.lower] on ASCII text: [A]..[Z] become [a]..[z], every other
    character is kept. The names of the catalogue and of the required
    columns are ASCII, as is every name the multiselect offers. Python also
    folds letters outside ASCII (U+212A, the Kelvin sign, becomes [k]); text
    with such characters is outside this model, and [isascii] below marks
    the text it covers. *)
Definition lower_ascii (c : ascii) : ascii :=
  let n := nat_of_ascii c in
  if (65 <=? n)%nat && (n <=? 90)%nat then ascii_of_nat (n + 32) else c.

Fixpoint lower (s : string) : string :=
  match s with
  | EmptyString => EmptyString
  | String c r => String (lower_ascii c) (lower r)
  end.

(** [str.isascii]: every character is below U+0080 *)
Fixpoint isascii (s : string) : bool :=
  match s with
  | EmptyString => true
  | String c r => (nat_of_ascii c <? 128)%nat && isascii r
  end.

Definition ThresholdPair : Type := option float * option float.

Definition KPI_THRESHOLDS : gmap string ThresholdPair :=
  list_to_map
    [ ("doorfriction"%string, (Some 30.0%float, Some 50.0%float));
      ("cumulativeDoorSpeedError"%string, (Some 0.05%float, Some 0.08%float));
      ("lockHookClosingTime"%string, (Some 0.2%float, Some 0.6%float));
      ("lockHookTime"%string, (Some 0.3%float, None));
      ("maximumForceDuringCompress"%string, (Some 5.0%float, Some 28.0%float));
      ("landingDoorLockRollerClearance"%string, (None, Some 0.029%float)) ].

(** [KPI_THRESHOLDS.get(kpi_name.lower(), (None, None))], line 169 *)
Definition lookup_thresholds (kpi_name : string) : ThresholdPair :=
  default (None, None) (KPI_THRESHOLDS !! lower kpi_name).

(** ** The per-group aggregation *)

(** One row of the filtered table: the five required columns. Rows with an
    unparsed date, a missing KPI name or a missing floor never pass the
    filters, so only [ave] can be missing (NaN). *)
Record Row : Type := mkRow {
  ckpi_statistics_date : Z;
  ave : float;
  ckpi : string;
  floor : Z;
  eq_id : Z
}.

(** The dictionary appended to [kpi_summary]. *)
Record Summary : Type := mkSummary {
  kpi : string;
  sfloor : Z;
  peaks : nat;
  lows : nat;
  rows : nat
}.

(** [Series.unique()]: the distinct values in order of first appearance *)
Fixpoint unique (l : list Z) : list Z :=
  match l with
  | [] => []
  | x :: r => x :: List.filter (fun y => negb (y =? x)%Z) (unique r)
  end.

(** [sorted(...)] on floor identifiers *)
Definition sorted (l : list Z) : list Z := merge_sort Z.le l.

Section Aggregate.

(** [df.sort_values(date_col)]: pandas sorts with its default
    [kind='quicksort']; the algorithm is the library's, so the sort is a
    parameter of the aggregation. *)
Variable sort_values : list Row -> list Row.
Variable df_filtered : list Row.
Variable std_factor : float.

(** the body of the inner loop, lines 157-193 (the plotting calls do not
    touch the data) *)
Definition floor_step (kpi_name : string) (df_kpi : list Row)
    (kpi_summary : list Summary) (fl : Z) : list Summary :=
  let df_floor := sort_values (List.filter (fun r => (floor r =? fl)%Z) df_kpi) in
  match df_floor with
  | [] => kpi_summary
  | _ =>
    let '(low_thresh, high_thresh) := lookup_thresholds kpi_name in
    let '(pk, lw) :=
      detect_peaks_lows (map ave df_floor) low_thresh high_thresh std_factor in
    kpi_summary ++
      [ {| kpi := kpi_name; sfloor := fl; peaks := length pk;
           lows := length lw; rows := length df_floor |} ]
  end.

(** the body of the outer loop, lines 148-193 *)
Definition kpi_step (kpi_summary : list Summary) (kpi_name : string)
  : list Summary :=
  let df_kpi :=
    List.filter (fun r => String.eqb (lower (ckpi r)) (lower kpi_name)) df_filtered in
  match df_kpi with
  | [] => kpi_summary
  | _ =>
    let floors := sorted (unique (map floor df_kpi)) in
    fold_left (floor_step kpi_name df_kpi) floors kpi_summary
  end.

Definition kpi_summary (selected_kpis : list string) : list Summary :=
  fold_left kpi_step selected_kpis [].

(** The rows of one (KPI, floor) group, its floors in the order of the inner
    loop, and the dictionary the loop appends for it. *)
Definition rows_of_kpi (kpi_name : string) : list Row :=
  List.filter (fun r => String.eqb (lower (ckpi r)) (lower kpi_name)) df_filtered.

Definition group_rows (kpi_name : string) (fl : Z) : list Row :=
  List.filter (fun r => (floor r =? fl)%Z) (rows_of_kpi kpi_name).

Definition floors_of (kpi_name : string) : list Z :=
  sorted (unique (map floor (rows_of_kpi kpi_name))).

Definition summary_of (kpi_name : string) (fl : Z) : Summary :=
  let df_floor := sort_values (group_rows kpi_name fl) in
  let '(low_thresh, high_thresh) := lookup_thresholds kpi_name in
  let '(pk, lw) :=
    detect_peaks_lows (map ave df_floor) low_thresh high_thresh std_factor in
  {| kpi := kpi_name; sfloor := fl; peaks := length pk;
     lows := length lw; rows := length df_floor |}.

End Aggregate.

(** The key of a summary, and the order of the report: the position of the
    KPI in the selection first, the floor second. *)
Definition group_key (rec : Summary) : string * Z := (kpi rec, sfloor rec).

Definition key_before (selected_kpis : list string) (k1 k2 : string * Z) : Prop :=
  exists p q : nat,
    selected_kpis !! p = Some (fst k1) /\
    selected_kpis !! q = Some (fst k2) /\
    ((p < q)%nat \/ (p = q /\ (snd k1 < snd k2)%Z)).

(** A sort by date that meets the contract of [sort_values] (a permutation
    in ascending date order), to run the aggregation on examples. *)
Definition date_le (r1 r2 : Row) : Prop :=
  (ckpi_statistics_date r1 <= ckpi_statistics_date r2)%Z.

#[global] Instance date_le_dec (r1 r2 : Row) : Decision (date_le r1 r2) :=
  Z_le_dec (ckpi_statistics_date r1) (ckpi_statistics_date r2).

Definition sort_by_date (df : list Row) : list Row := merge_sort date_le df.

(** A small filtered table: two floors of [doorfriction] (one row spelt with
    capitals) and one floor of [lockHookTime]. *)
Definition example_df : list Row :=
  [ mkRow 3 41.5%float "DoorFriction" 2 7;
    mkRow 1 38%float "doorfriction" 1 7;
    mkRow 2 0.5%float "lockHookTime" 1 7;
    mkRow 4 44%float "doorfriction" 2 7 ].

Definition example_selection : list string :=
  [ "doorfriction"%string; "lockHookTime"%string ].

(** ** The actionable-insight report *)

Definition solution_map : gmap nat string :=
  list_to_map
    [ (1, "Follow solution 1"%string);
      (2, "Follow solution 2"%string);
      (3, "This is the reason for the error"%string) ].

(** one dictionary of [report_rows] *)
Record Insight : Type := mkInsight {
  KPI : string;
  Floor : Z;
  Action_Needed : string;
  Remedy_Reason : option string
}.

(** [rec['peaks'] + rec['lows'] > rec['rows']*0.2], line 214. Python
    multiplies the row count as a double and compares the integer sum with
    the product exactly; below 2^53 the sum is itself a double, so the
    comparison is the binary64 one. *)
Definition actionable (rec : Summary) : bool :=
  (of_int (peaks rec + lows rec) >? of_int (rows rec) * 0.2)%float.

(** [(rec['peaks']+rec['lows'])%3+1] *)
Definition remedy_code (rec : Summary) : nat := (peaks rec + lows rec) mod 3 + 1.

Definition insight (rec : Summary) : Insight :=
  {| KPI := kpi rec;
     Floor := sfloor rec;
     Action_Needed := "⚠️ High uncertainty → Technician check";
     Remedy_Reason := solution_map !! remedy_code rec |}.

Definition report_step (report_rows : list Insight) (rec : Summary)
  : list Insight :=
  if actionable rec then report_rows ++ [insight rec] else report_rows.

Definition report_rows (kpi_summary : list Summary) : list Insight :=
  fold_left report_step kpi_summary [].

(** ** Rounding to binary64 as integer arithmetic

    The specification of the primitive operations ([SpecFloat]) rounds with a
    shift register; the definitions below say the same with quotients and
    remainders, which is the form the order properties are proved on. *)

Section Binary64Model.

Local Open Scope Z_scope.

(** number of binary digits of a positive integer *)
Definition dig (m : Z) : Z := Z.log2 m + 1.

(** [m / 2^k] rounded to the nearest integer, ties to even ([k >= 1]) *)
Definition rne (m k : Z) : Z :=
  let q := m / 2 ^ k in
  let r := m mod 2 ^ k in
  let h := 2 ^ (k - 1) in
  if r <? h then q
  else if h <? r then q + 1
  else if Z.even q then q else q + 1.

(** [X * 2^(-S)] rounded to an integer *)
Definition RN (X S : Z) : Z := if S <=? 0 then X * 2 ^ (- S) else rne X S.

(** the state of the shift register after [k] right shifts of [m] *)
Definition shr_state (m k : Z) : shr_record :=
  {| shr_m := m / 2 ^ k;
     shr_r := (0 <? k) && Z.odd (m / 2 ^ (k - 1));
     shr_s := (0 <? k) && negb (m mod 2 ^ (k - 1) =? 0) |}.

(** The result of rounding [m * 2^e] ([m > 0]) with sign [s]: the integer
    mantissa is the quotient by [2^(eps - e)] rounded to nearest even, where
    [eps] is the exponent of the format at the magnitude of the value. *)
Definition round_model (s : bool) (m e : Z) : spec_float :=
  let eps := fexp prec emax (dig m + e) in
  let N := RN m (eps - e) in
  if N =? 0 then S754_zero s
  else if N =? 2 ^ 53 then
    if eps + 1 <=? 971 then S754_finite s (Z.to_pos (2 ^ 52)) (eps + 1)
    else S754_infinity s
  else if eps <=? 971 then S754_finite s (Z.to_pos N) eps
  else S754_infinity s.

(** the value of a finite float in units of [2^-1074] *)
Definition ulps (x : spec_float) : Z :=
  match x with
  | S754_finite s m e => (if s then -1 else 1) * (Zpos m * 2 ^ (e + 1074))
  | _ => 0
  end.

(** zero or finite *)
Definition is_fz (x : spec_float) : bool :=
  match x with
  | S754_zero _ | S754_finite _ _ _ => true
  | _ => false
  end.

End Binary64Model.

(** ** The script around the engine *)

(** [str.endswith]: some suffix of [s] is [suffix] *)
Fixpoint endswith (s suffix : string) : bool :=
  String.eqb s suffix
  || match s with
     | EmptyString => false
     | String _ r => endswith r suffix
     end.

(** the four calls [read_file] can make *)
Inductive Reader : Type :=
  | read_excel_openpyxl
  | read_excel_xlrd
  | read_csv
  | read_json.

(** [read_file], lines 24-34: the reader chosen for the uploaded file *)
Definition read_file (uploaded_name : string) : Reader :=
  let name := lower uploaded_name in
  if endswith name ".xlsx" then read_excel_openpyxl
  else if endswith name ".xls" then read_excel_xlrd
  else if endswith name ".csv" then read_csv
  else if endswith name ".json" then read_json
  else read_csv.

(** [color_cycle], lines 58-60 *)
Definition palette : list string :=
  [ "#1f77b4"; "#ff7f0e"; "#2ca02c"; "#d62728";
    "#9467bd"; "#8c564b"; "#e377c2"; "#7f7f7f" ]%string.

Definition color_cycle (i : nat) : string :=
  nth (i mod length palette) palette ""%string.

(** [cols_lower = {c.lower(): c for c in df.columns}], line 85: a later
    column replaces an earlier one with the same lower-cased name *)
Definition cols_lower (columns : list string) : gmap string string :=
  fold_left (fun m c => <[lower c := c]> m) columns ∅.

Definition required : list string :=
  [ "ckpi_statistics_date"; "ave"; "ckpi"; "floor"; "eq" ]%string.

(** The outcome of lines 87-92: the script stops on the first required name
    that is missing, or binds the five column names; the subscript
    [cols_lower[c]] raises [KeyError] on a missing key. *)
Inductive Columns : Type :=
  | Stop (req : string)
  | KeyError
  | Resolved (cols : list string).

Definition find_columns (columns : list string) : Columns :=
  let m := cols_lower columns in
  match List.find (fun req => match m !! req with None => true | Some _ => false end)
          required with
  | Some req => Stop req
  | None =>
    match mapM (fun c => m !! c) required with
    | Some cols => Resolved cols
    | None => KeyError
    end
  end.

(** the choices of the "Quick Select" box, line 115 *)
Definition preset_choices : list string :=
  [ "Custom"; "Past Week"; "Past Month"; "Past 3 Months"; "Past 6 Months";
    "Past Year" ]%string.

(** The date range of lines 116-128; dates are day numbers, so that
    [today - timedelta(days=k)] is [today - k]. *)
Definition date_range (preset_range : string) (today : Z) (custom : Z * Z)
  : Z * Z :=
  if String.eqb preset_range "Custom" then custom
  else if String.eqb preset_range "Past Week" then ((today - 7)%Z, today)
  else if String.eqb preset_range "Past Month" then ((today - 30)%Z, today)
  else if String.eqb preset_range "Past 3 Months" then ((today - 90)%Z, today)
  else if String.eqb preset_range "Past 6 Months" then ((today - 180)%Z, today)
  else ((today - 365)%Z, today).

(** A row of the uploaded table: the date is a timestamp in nanoseconds or
    [NaT], and any of the KPI name, floor and equipment cells can be empty. *)
Record RawRow : Type := mkRawRow {
  raw_date : option Z;
  raw_ave : float;
  raw_ckpi : option string;
  raw_floor : option Z;
  raw_eq : option Z
}.

(** [Series.dt.date]: the day of a timestamp *)
Definition dt_date (timestamp : Z) : Z := (timestamp / 86400000000000)%Z.

(** [Series.isin] *)
Definition isin (x : Z) (values : list Z) : bool := existsb (Z.eqb x) values.

Definition str_isin (x : string) (values : list string) : bool :=
  existsb (String.eqb x) values.

Section ApplyFilters.

Variables selected_eq selected_floors : list Z.
Variable selected_kpis : list string.
Variables start_date end_date : Z.

(** The mask of lines 134-139 on one row; an empty cell makes its test
    false. A row that passes has all four cells. *)
Definition passes (r : RawRow) : option Row :=
  match raw_eq r, raw_floor r, raw_ckpi r, raw_date r with
  | Some e, Some fl, Some k, Some d =>
    if isin e selected_eq
       && isin fl selected_floors
       && str_isin (lower k) (map lower selected_kpis)
       && ((start_date <=? dt_date d)%Z && (dt_date d <=? end_date)%Z)
    then Some (mkRow d (raw_ave r) k fl e)
    else None
  | _, _, _, _ => None
  end.

Definition apply_filters (df : list RawRow) : list Row := omap passes df.

End ApplyFilters.

(** [values[idx]] with a list of positions (lines 173-174, 180-181): numpy
    raises [IndexError] when a position is outside the array. *)
Definition values_at {A : Type} (values : list A) (idx : list nat)
  : option (list A) :=
  mapM (fun i => values !! i) idx.

(** the number of rows the summaries account for *)
Definition total_rows (kpi_summary : list Summary) : nat :=
  list_sum (map rows kpi_summary).

(** * Properties *)

(** ** IEEE comparison *)

Lemma compare_cont_swap (p q : positive) :
  Pos.compare_cont Eq q p = CompOpp (Pos.compare_cont Eq p q).
Proof. symmetry. apply (Pos.compare_cont_antisym p q Eq). Qed.

Lemma SFcompare_Lt_swap (x y : spec_float) :
  SFcompare x y = Some Lt -> SFcompare y x = Some Gt.
Proof.
  destruct x as [sx|sx| |sx mx ex], y as [sy|sy| |sy my ey]; simpl;
    try destruct sx; try destruct sy; try discriminate; try reflexivity.
  - rewrite (Z.compare_antisym ex ey).
    destruct (ex ?= ey)%Z eqn:E; simpl; try discriminate; try reflexivity.
    rewrite (compare_cont_swap mx my).
    destruct (Pos.compare_cont Eq mx my); simpl; congruence.
  - rewrite (Z.compare_antisym ex ey).
    destruct (ex ?= ey)%Z eqn:E; simpl; try discriminate; try reflexivity.
    rewrite (compare_cont_swap mx my).
    destruct (Pos.compare_cont Eq mx my); simpl; congruence.
Qed.

Lemma ltb_asym (x y : float) : (x <? y)%float = true -> (y <? x)%float = false.
Proof.
  rewrite !ltb_spec. unfold SFltb. intros H.
  destruct (SFcompare (Prim2SF x) (Prim2SF y)) as [[]|] eqn:E; try discriminate.
  now rewrite (SFcompare_Lt_swap _ _ E).
Qed.

(** ** The detection loop as two filters *)

Section DetectLoopFacts.

Variable arr : list float.
Variables low_thresh high_thresh : option float.
Variables upper_stat lower_stat : float.

Let step := detect_step arr low_thresh high_thresh upper_stat lower_stat.
Let isP := reports_peak arr high_thresh upper_stat.
Let isL := reports_low arr low_thresh lower_stat.

Lemma detect_step_spec (pk lw : list nat) (i : nat) :
  step (pk, lw) i
  = (pk ++ (if isP i then [i] else []), lw ++ (if isL i then [i] else [])).
Proof.
  unfold step, isP, isL, detect_step, reports_peak, reports_low.
  destruct (np.isnan (getitem arr i)); simpl.
  - now rewrite !app_nil_r.
  - destruct (np.isnan (getitem arr (i - 1))); simpl.
    + now rewrite !app_nil_r.
    + destruct (np.isnan (getitem arr (i + 1))); simpl.
      * now rewrite !app_nil_r.
      * destruct (peak_cond _ _ _ _), (low_cond _ _ _ _);
          now rewrite ?app_nil_r.
Qed.

Lemma detect_loop_spec (l : list nat) : forall pk lw,
  fold_left step l (pk, lw)
  = (pk ++ List.filter isP l, lw ++ List.filter isL l).
Proof.
  induction l as [|i l IH]; intros pk lw; cbn [fold_left List.filter].
  - now rewrite !app_nil_r.
  - rewrite detect_step_spec, IH.
    destruct (isP i), (isL i); now rewrite <- ?app_assoc, ?app_nil_r.
Qed.

Lemma reports_exclusive (i : nat) : isP i = true -> isL i = false.
Proof.
  unfold isP, isL, reports_peak, reports_low, peak_cond, low_cond.
  intros H. apply andb_true_iff in H as [_ H].
  apply andb_true_iff in H as [H _].
  apply andb_true_iff in H as [H _].
  rewrite (ltb_asym _ _ H). simpl. now rewrite andb_false_r.
Qed.

End DetectLoopFacts.

Lemma filter_seq_sorted (f : nat -> bool) (start len : nat) :
  StronglySorted lt (List.filter f (seq start len)).
Proof.
  revert start. induction len as [|len IH]; intros start; simpl.
  - constructor.
  - destruct (f start); [|apply IH].
    constructor; [apply IH|].
    apply List.Forall_forall. intros j Hj.
    apply filter_In in Hj as [Hj _]. apply in_seq in Hj. lia.
Qed.

Lemma detect_unfold (values : list float) (lo hi : option float) (s : float) :
  (length values <? 3)%nat || np.isnan_all values = false ->
  detect_peaks_lows values lo hi s
  = (List.filter (reports_peak values hi
                    (np.nanmean values + s * np.nanstd values)%float)
       (interior (length values)),
     List.filter (reports_low values lo
                    (np.nanmean values - s * np.nanstd values)%float)
       (interior (length values))).
Proof.
  intros H. unfold detect_peaks_lows. rewrite H.
  now rewrite detect_loop_spec.
Qed.

Lemma getitem_lookup (arr : list float) (i : nat) (x : float) :
  arr !! i = Some x -> getitem arr i = x.
Proof. intros H. unfold getitem. now rewrite nth_lookup, H. Qed.

Lemma isnan_all_false (arr : list float) (i : nat) (x : float) :
  arr !! i = Some x -> np.isnan x = false -> np.isnan_all arr = false.
Proof.
  intros Hi Hx. unfold np.isnan_all.
  destruct (forallb np.isnan arr) eqn:E; [|reflexivity].
  rewrite forallb_forall in E.
  assert (In x arr) as Hin by (apply list_elem_of_In; eapply list_elem_of_lookup_2; eauto).
  specialize (E x Hin). congruence.
Qed.

Lemma above_true (thresh : option float) (b : float) :
  above thresh b = true <-> exists h, thresh = Some h /\ (b >? h)%float = true.
Proof.
  destruct thresh as [h|]; simpl; split.
  - intros H. now exists h.
  - intros (h' & [= <-] & H). exact H.
  - discriminate.
  - intros (h' & [=] & _).
Qed.

Lemma below_true (thresh : option float) (b : float) :
  below thresh b = true <-> exists l, thresh = Some l /\ (b <? l)%float = true.
Proof.
  destruct thresh as [l|]; simpl; split.
  - intros H. now exists l.
  - intros (l' & [= <-] & H). exact H.
  - discriminate.
  - intros (l' & [=] & _).
Qed.

(** ** The detector *)

(** C3, as the specification words it, fails: on [1, 10, 1, 10, 1] with no
    thresholds and sensitivity 1 the lower bound is mean - std = 4.6 - 4.409,
    about 0.19, and the value 1 at index 2 is not below it. *)
Lemma detect_alternating_no_low :
  ~ (fst (detect_peaks_lows [1; 10; 1; 10; 1]%float None None 1%float) = [1; 3]%nat
     /\ In 2%nat (snd (detect_peaks_lows [1; 10; 1; 10; 1]%float None None 1%float))).
Proof. vm_compute. intros [_ []]. Qed.

(** C3, amended. On [1, 10, 1, 10, 1] with no thresholds and sensitivity 1
    the detector returns the peaks 1 and 3 and no low. *)
Theorem detect_alternating :
  detect_peaks_lows [1; 10; 1; 10; 1]%float None None 1%float = ([1; 3]%nat, []).
Proof. vm_compute. reflexivity. Qed.

(** C4. A sequence of fewer than three elements, or one whose elements are all
    missing, gives two empty index lists; the function is total, so nothing is
    raised. *)
Theorem detect_insufficient (values : list float)
    (low_thresh high_thresh : option float) (std_factor : float) :
  (length values < 3)%nat \/ (forall x, In x values -> np.isnan x = true) ->
  detect_peaks_lows values low_thresh high_thresh std_factor = ([], []).
Proof.
  intros H. unfold detect_peaks_lows.
  assert ((length values <? 3)%nat || np.isnan_all values = true) as ->;
    [|reflexivity].
  apply orb_true_iff. destruct H as [H|H].
  - left. now apply Nat.ltb_lt.
  - right. unfold np.isnan_all. now apply forallb_forall.
Qed.

Lemma detect_insufficient_witness :
  detect_peaks_lows [7; 9]%float (Some 5%float) (Some 8%float) 1%float = ([], []).
Proof.
  apply (detect_insufficient [7; 9]%float (Some 5%float) (Some 8%float) 1%float).
  left. simpl. lia.
Defined.

(** C5. Every reported index is interior (between 1 and n-2), no index is
    both a peak and a low, and both lists are strictly ascending. *)
Theorem detect_indices (values : list float)
    (low_thresh high_thresh : option float) (std_factor : float) :
  let n := length values in
  let result := detect_peaks_lows values low_thresh high_thresh std_factor in
  (forall i, In i (fst result) \/ In i (snd result) ->
             (1 <= i)%nat /\ (i + 2 <= n)%nat)
  /\ (forall i, In i (fst result) -> ~ In i (snd result))
  /\ StronglySorted lt (fst result)
  /\ StronglySorted lt (snd result).
Proof.
  intros n result. unfold result.
  destruct ((length values <? 3)%nat || np.isnan_all values) eqn:G.
  - unfold detect_peaks_lows. rewrite G. cbn [fst snd].
    split; [intros i [[]|[]]|].
    split; [intros i []|]. split; apply SSorted_nil.
  - rewrite (detect_unfold _ _ _ _ G). cbn [fst snd]. unfold interior.
    repeat split.
    + destruct H as [H|H]; apply filter_In in H as [H _];
        apply in_seq in H; lia.
    + destruct H as [H|H]; apply filter_In in H as [H _];
        apply in_seq in H; fold n in H; lia.
    + intros i HP HL. apply filter_In in HP as [_ HP].
      apply filter_In in HL as [_ HL].
      apply (reports_exclusive values low_thresh high_thresh _
               (np.nanmean values - std_factor * np.nanstd values)%float) in HP.
      congruence.
    + apply filter_seq_sorted.
    + apply filter_seq_sorted.
Qed.

(** The worked cases of the specification: a constant series has no
    extremum whatever the thresholds; a 9 between two 9s is above the high
    threshold 8 but is not a local maximum; a 9 between two 6s is reported
    on the threshold alone, although it is below mean + 3 std. *)
Example detect_constant :
  detect_peaks_lows [9; 9; 9; 9]%float (Some 5%float) (Some 8%float) 1%float
  = ([], []).
Proof. vm_compute. reflexivity. Qed.

Example detect_flat_above_threshold :
  detect_peaks_lows [9; 9; 9]%float (Some 5%float) (Some 8%float) 1%float
  = ([], []).
Proof. vm_compute. reflexivity. Qed.

Example detect_threshold_only :
  detect_peaks_lows [6; 9; 6; 6; 6]%float (Some 5%float) (Some 8%float) 3%float
  = ([1%nat], [])
  /\ detect_peaks_lows [6; 9; 6; 6; 6]%float (Some 5%float) None 3%float
     = ([], []).
Proof. split; vm_compute; reflexivity. Qed.

(** a missing centre or a missing neighbour is skipped *)
Example detect_missing :
  detect_peaks_lows [1; nan; 1; 50; nan; 1]%float None None 1%float = ([], []).
Proof. vm_compute. reflexivity. Qed.

(** ** The threshold catalogue *)

(** C2, at a name of the catalogue. The key [lockHookTime] is stored with its
    capitals, the lookup lower-cases the name it is given, so the lookup of
    that very name misses and falls back to no thresholds. *)
Theorem lookup_thresholds_lockHookTime :
  KPI_THRESHOLDS !! "lockHookTime"%string = Some (Some 0.3%float, None)
  /\ lookup_thresholds "lockHookTime" = (None, None).
Proof. split; vm_compute; reflexivity. Qed.

(** The whole lookup: lower-casing is idempotent, so a lower-cased name can
    only hit a key that is its own lower-casing, and [doorfriction] is the one
    such key of the catalogue. *)
Lemma lower_ascii_idem (c : ascii) : lower_ascii (lower_ascii c) = lower_ascii c.
Proof. destruct c as [[] [] [] [] [] [] [] []]; reflexivity. Qed.

Lemma lower_idem (s : string) : lower (lower s) = lower s.
Proof.
  induction s as [|c s IH]; [reflexivity|].
  cbn [lower]. now rewrite lower_ascii_idem, IH.
Qed.

Lemma lower_fixed (name key : string) : lower name = key -> lower key = key.
Proof. intros <-. apply lower_idem. Qed.

Lemma lookup_thresholds_reachable (kpi_name : string) :
  lookup_thresholds kpi_name
  = if String.eqb (lower kpi_name) "doorfriction"
    then (Some 30.0%float, Some 50.0%float) else (None, None).
Proof.
  unfold lookup_thresholds, KPI_THRESHOLDS. cbn [list_to_map foldr].
  destruct (String.eqb_spec (lower kpi_name) "doorfriction") as [E|E].
  - rewrite E. now rewrite lookup_insert_eq.
  - rewrite lookup_insert_ne by (intros Hk; apply E; now symmetry).
    repeat (rewrite lookup_insert_ne;
            [|intros Hk; symmetry in Hk; apply lower_fixed in Hk;
              vm_compute in Hk; discriminate Hk]).
    now rewrite lookup_empty.
Qed.

(** the one entry that is found, in any casing *)
Example lookup_thresholds_doorfriction :
  lookup_thresholds "DoorFriction" = (Some 30.0%float, Some 50.0%float).
Proof. reflexivity. Qed.

(** ** The report *)

Lemma solution_map_keys (k : nat) :
  is_Some (solution_map !! k) <-> (1 <= k <= 3)%nat.
Proof.
  unfold solution_map. cbn [list_to_map foldr]. split.
  - intros H.
    destruct (decide (k = 1%nat)); [lia|].
    destruct (decide (k = 2%nat)); [lia|].
    destruct (decide (k = 3%nat)); [lia|].
    do 3 (rewrite lookup_insert_ne in H by (cbn [fst]; lia)).
    rewrite lookup_empty in H.
    now destruct H.
  - intros H.
    assert (k = 1 \/ k = 2 \/ k = 3)%nat as [-> | [-> | ->]] by lia;
      vm_compute; eauto.
Qed.

Lemma report_rows_acc (summary : list Summary) : forall acc,
  fold_left report_step summary acc
  = acc ++ map insight (List.filter actionable summary).
Proof.
  induction summary as [|rec summary IH]; intros acc; cbn [fold_left List.filter].
  - now rewrite app_nil_r.
  - rewrite IH. unfold report_step.
    destruct (actionable rec); [|reflexivity].
    now rewrite <- app_assoc.
Qed.

Lemma remedy_code_range (rec : Summary) :
  remedy_code rec = 1%nat \/ remedy_code rec = 2%nat \/ remedy_code rec = 3%nat.
Proof.
  unfold remedy_code.
  pose proof (Nat.mod_upper_bound (peaks rec + lows rec) 3 ltac:(lia)). lia.
Qed.

(** C9. The report is the list of the insights of the actionable summaries,
    in the order of the summaries; the remedy of each is the entry of the
    table under the code (peaks + lows) mod 3 + 1, which is always one of
    1, 2, 3 and always has an entry; the table has exactly these three
    codes. *)
Theorem report_rows_spec (summary : list Summary) :
  report_rows summary = map insight (List.filter actionable summary)
  /\ (forall rec,
        Remedy_Reason (insight rec)
        = solution_map !! ((peaks rec + lows rec) mod 3 + 1)%nat
        /\ (1 <= (peaks rec + lows rec) mod 3 + 1 <= 3)%nat
        /\ is_Some (Remedy_Reason (insight rec))
        /\ KPI (insight rec) = kpi rec /\ Floor (insight rec) = sfloor rec)
  /\ (forall k, is_Some (solution_map !! k) <-> (1 <= k <= 3)%nat).
Proof.
  split; [|split].
  - unfold report_rows. now rewrite report_rows_acc.
  - intros rec. split; [reflexivity|].
    pose proof (remedy_code_range rec) as H. unfold remedy_code in H.
    split; [lia|]. split; [|split; reflexivity].
    cbn [insight Remedy_Reason]. unfold remedy_code.
    apply solution_map_keys. lia.
  - apply solution_map_keys.
Qed.

(** ** The aggregation *)

Lemma unique_In (l : list Z) (x : Z) : In x (unique l) <-> In x l.
Proof.
  induction l as [|y l IH]; simpl; [tauto|].
  rewrite filter_In, IH. split.
  - intros [H|[H _]]; auto.
  - intros [H|H]; [now left|].
    destruct (Z.eq_dec y x) as [E|E]; [now left|].
    right. split; [exact H|]. apply negb_true_iff, Z.eqb_neq. congruence.
Qed.

Lemma unique_NoDup (l : list Z) : List.NoDup (unique l).
Proof.
  induction l as [|y l IH]; simpl; constructor.
  - rewrite filter_In. intros [_ H].
    apply negb_true_iff, Z.eqb_neq in H. congruence.
  - now apply List.NoDup_filter.
Qed.

Lemma sorted_In (l : list Z) (x : Z) : In x (sorted l) <-> In x l.
Proof.
  unfold sorted. rewrite <- !list_elem_of_In.
  now rewrite (merge_sort_Permutation Z.le l).
Qed.

Lemma sorted_unique_increasing (l : list Z) :
  StronglySorted Z.lt (sorted (unique l)).
Proof.
  assert (List.NoDup (sorted (unique l))) as Hnd.
  { apply NoDup_ListNoDup. unfold sorted.
    rewrite (merge_sort_Permutation Z.le). apply NoDup_ListNoDup, unique_NoDup. }
  assert (StronglySorted Z.le (sorted (unique l))) as Hs.
  { unfold sorted. apply StronglySorted_merge_sort; apply _. }
  induction Hs as [|x r Hs IH Hx]; constructor.
  - apply IH. now inversion Hnd.
  - inversion Hnd as [|? ? Hnotin _]; subst.
    rewrite List.Forall_forall in *. intros y Hy.
    specialize (Hx y Hy).
    assert (x <> y) by (intros ->; contradiction). lia.
Qed.

Section AggregateFacts.

Variable sort_values : list Row -> list Row.
Hypothesis sort_values_perm : forall df, sort_values df ≡ₚ df.
Variable df_filtered : list Row.
Variable std_factor : float.

Lemma group_rows_In (kpi_name : string) (fl : Z) (r : Row) :
  In r (group_rows df_filtered kpi_name fl)
  <-> In r df_filtered /\ lower (ckpi r) = lower kpi_name /\ floor r = fl.
Proof.
  unfold group_rows, rows_of_kpi. rewrite !filter_In, Z.eqb_eq, String.eqb_eq.
  tauto.
Qed.

Lemma floors_of_In (kpi_name : string) (fl : Z) :
  In fl (floors_of df_filtered kpi_name)
  <-> exists r, In r df_filtered /\ lower (ckpi r) = lower kpi_name /\ floor r = fl.
Proof.
  unfold floors_of. rewrite sorted_In, unique_In, in_map_iff.
  unfold rows_of_kpi. split.
  - intros (r & <- & Hr). apply filter_In in Hr as [Hr E].
    apply String.eqb_eq in E. now exists r.
  - intros (r & Hr & E & <-). exists r. split; [reflexivity|].
    apply filter_In. split; [exact Hr|]. now apply String.eqb_eq.
Qed.

Lemma sort_values_nonempty (df : list Row) (r : Row) :
  In r df -> sort_values df <> [].
Proof.
  intros Hr E. pose proof (sort_values_perm df) as P. rewrite E in P.
  apply Permutation_nil_l in P. subst df. exact Hr.
Qed.

Lemma floor_step_spec (kpi_name : string) (acc : list Summary) (fl : Z) :
  In fl (floors_of df_filtered kpi_name) ->
  floor_step sort_values std_factor kpi_name (rows_of_kpi df_filtered kpi_name) acc fl
  = acc ++ [summary_of sort_values df_filtered std_factor kpi_name fl].
Proof.
  intros Hfl. apply floors_of_In in Hfl as (r & Hr & E & Ef).
  assert (In r (group_rows df_filtered kpi_name fl)) as Hin
    by (apply group_rows_In; auto).
  apply sort_values_nonempty in Hin.
  unfold floor_step, summary_of. fold (group_rows df_filtered kpi_name fl).
  destruct (sort_values (group_rows df_filtered kpi_name fl)) as [|r0 df_floor];
    [contradiction|].
  destruct (lookup_thresholds kpi_name) as [lo hi].
  now destruct (detect_peaks_lows _ lo hi std_factor).
Qed.

Lemma floor_loop_spec (kpi_name : string) (floors : list Z) : forall acc,
  (forall fl, In fl floors -> In fl (floors_of df_filtered kpi_name)) ->
  fold_left (floor_step sort_values std_factor kpi_name
               (rows_of_kpi df_filtered kpi_name)) floors acc
  = acc ++ map (summary_of sort_values df_filtered std_factor kpi_name) floors.
Proof.
  induction floors as [|fl floors IH]; intros acc Hin; cbn [fold_left map].
  - now rewrite app_nil_r.
  - rewrite floor_step_spec by (apply Hin; now left).
    rewrite IH by (intros fl' H'; apply Hin; now right).
    now rewrite <- app_assoc.
Qed.

Lemma kpi_step_spec (acc : list Summary) (kpi_name : string) :
  kpi_step sort_values df_filtered std_factor acc kpi_name
  = acc ++ map (summary_of sort_values df_filtered std_factor kpi_name)
             (floors_of df_filtered kpi_name).
Proof.
  unfold kpi_step. fold (rows_of_kpi df_filtered kpi_name).
  destruct (rows_of_kpi df_filtered kpi_name) as [|r df_kpi] eqn:E.
  - unfold floors_of. rewrite E. cbn. now rewrite app_nil_r.
  - rewrite <- E. fold (floors_of df_filtered kpi_name).
    now apply floor_loop_spec.
Qed.

Lemma kpi_summary_spec (selected_kpis : list string) :
  kpi_summary sort_values df_filtered std_factor selected_kpis
  = flat_map (fun k => map (summary_of sort_values df_filtered std_factor k)
                         (floors_of df_filtered k)) selected_kpis.
Proof.
  unfold kpi_summary.
  enough (forall acc,
    fold_left (kpi_step sort_values df_filtered std_factor) selected_kpis acc
    = acc ++ flat_map (fun k => map (summary_of sort_values df_filtered std_factor k)
                                  (floors_of df_filtered k)) selected_kpis)
    as H by apply (H []).
  induction selected_kpis as [|k sel IH]; intros acc; cbn [fold_left flat_map].
  - now rewrite app_nil_r.
  - now rewrite IH, kpi_step_spec, <- app_assoc.
Qed.

Lemma summary_of_key (kpi_name : string) (fl : Z) :
  group_key (summary_of sort_values df_filtered std_factor kpi_name fl)
  = (kpi_name, fl).
Proof.
  unfold summary_of, group_key.
  destruct (lookup_thresholds kpi_name) as [lo hi].
  now destruct (detect_peaks_lows _ lo hi std_factor).
Qed.

Lemma summary_of_rows (kpi_name : string) (fl : Z) :
  rows (summary_of sort_values df_filtered std_factor kpi_name fl)
  = length (group_rows df_filtered kpi_name fl).
Proof.
  unfold summary_of.
  destruct (lookup_thresholds kpi_name) as [lo hi].
  destruct (detect_peaks_lows _ lo hi std_factor). cbn [rows].
  now rewrite (sort_values_perm _).
Qed.

Lemma kpi_summary_keys (selected_kpis : list string) :
  map group_key (kpi_summary sort_values df_filtered std_factor selected_kpis)
  = flat_map (fun k => map (pair k) (floors_of df_filtered k)) selected_kpis.
Proof.
  rewrite kpi_summary_spec.
  induction selected_kpis as [|k sel IH]; cbn [flat_map map]; [reflexivity|].
  rewrite map_app, IH, map_map. f_equal.
  apply map_ext. intros fl. apply summary_of_key.
Qed.

End AggregateFacts.

Lemma keys_of_kpi_sorted (pre sel : list string) (k : string) (floors : list Z) :
  StronglySorted Z.lt floors ->
  StronglySorted (key_before (pre ++ k :: sel)) (map (pair k) floors).
Proof.
  induction 1 as [|fl floors Hs IH Hfl]; cbn [map]; constructor; [exact IH|].
  rewrite List.Forall_forall in *. intros [k' fl'] Hin.
  apply in_map_iff in Hin as (f & [= <- <-] & Hf).
  exists (length pre), (length pre). cbn [fst snd].
  rewrite list_lookup_middle by reflexivity.
  split; [reflexivity|]. split; [reflexivity|]. right. split; [reflexivity|].
  now apply Hfl.
Qed.

Lemma keys_sorted (floors : string -> list Z) (sel : list string) : forall pre,
  (forall k, StronglySorted Z.lt (floors k)) ->
  StronglySorted (key_before (pre ++ sel))
    (flat_map (fun k => map (pair k) (floors k)) sel).
Proof.
  induction sel as [|k sel IH]; intros pre Hfl; cbn [flat_map].
  - constructor.
  - apply StronglySorted_app_2.
    + intros [k1 f1] [k2 f2] H1 H2.
      apply list_elem_of_In, in_map_iff in H1 as (f & [= <- <-] & _).
      apply list_elem_of_In, in_flat_map in H2 as (k' & Hk' & H2).
      apply in_map_iff in H2 as (f' & [= <- <-] & _).
      apply list_elem_of_In, list_elem_of_lookup in Hk' as [j Hj].
      exists (length pre), (length pre + S j)%nat. cbn [fst snd].
      rewrite list_lookup_middle by reflexivity.
      split; [reflexivity|]. split; [|left; lia].
      rewrite lookup_app_r by lia.
      replace (length pre + S j - length pre)%nat with (S j) by lia.
      exact Hj.
    + now apply keys_of_kpi_sorted.
    + specialize (IH (pre ++ [k]) Hfl).
      now rewrite <- app_assoc in IH.
Qed.

Lemma key_before_irrefl (sel : list string) (x : string * Z) :
  List.NoDup sel -> ~ key_before sel x x.
Proof.
  intros Hnd (p & q & Hp & Hq & [H|[_ H]]); [|lia].
  apply NoDup_ListNoDup in Hnd.
  pose proof (NoDup_lookup _ _ _ _ Hnd Hp Hq). lia.
Qed.

Lemma StronglySorted_irrefl_NoDup {A : Type} (R : A -> A -> Prop) (l : list A) :
  (forall x, ~ R x x) -> StronglySorted R l -> List.NoDup l.
Proof.
  intros Hirr. induction 1 as [|x l Hs IH Hx]; constructor; [|exact IH].
  intros Hin. rewrite List.Forall_forall in Hx. exact (Hirr x (Hx x Hin)).
Qed.

(** C7. With a selection that lists no KPI twice, the summaries are exactly
    the (KPI, floor) pairs with a selected KPI and at least one row of the
    filtered table whose lower-cased KPI name and floor match; no pair is
    emitted twice; the summaries come in the order of the selection, and by
    ascending floor inside one KPI; the row count of each is the size of its
    group, which is at least one. *)
Theorem kpi_summary_groups (sort_values : list Row -> list Row)
    (df_filtered : list Row) (std_factor : float) (selected_kpis : list string) :
  (forall df, sort_values df ≡ₚ df) ->
  List.NoDup selected_kpis ->
  let out := kpi_summary sort_values df_filtered std_factor selected_kpis in
  (forall k fl,
      In (k, fl) (map group_key out) <->
      In k selected_kpis /\
      exists r, In r df_filtered /\ lower (ckpi r) = lower k /\ floor r = fl)
  /\ List.NoDup (map group_key out)
  /\ StronglySorted (key_before selected_kpis) (map group_key out)
  /\ (forall rec, In rec out ->
        rows rec = length (group_rows df_filtered (kpi rec) (sfloor rec))
        /\ (1 <= rows rec)%nat).
Proof.
  intros Hperm Hnd out. unfold out.
  assert (StronglySorted (key_before selected_kpis)
            (map group_key
               (kpi_summary sort_values df_filtered std_factor selected_kpis)))
    as Hsorted.
  { rewrite (kpi_summary_keys _ Hperm).
    apply (keys_sorted (floors_of df_filtered) selected_kpis []).
    intros k. apply sorted_unique_increasing. }
  split; [|split; [|split; [exact Hsorted|]]].
  - intros k fl. rewrite (kpi_summary_keys _ Hperm), in_flat_map. split.
    + intros (k' & Hk' & Hin). apply in_map_iff in Hin as (f & [= -> ->] & Hf).
      split; [exact Hk'|]. now apply floors_of_In.
    + intros [Hk Hr]. exists k. split; [exact Hk|].
      apply in_map. now apply floors_of_In.
  - eapply StronglySorted_irrefl_NoDup; [|exact Hsorted].
    intros x. now apply key_before_irrefl.
  - intros rec Hrec. rewrite (kpi_summary_spec _ Hperm) in Hrec.
    apply in_flat_map in Hrec as (k & _ & Hrec).
    apply in_map_iff in Hrec as (fl & <- & Hfl).
    pose proof (summary_of_key sort_values df_filtered std_factor k fl) as Hkey.
    injection Hkey as -> ->.
    rewrite (summary_of_rows _ Hperm). split; [reflexivity|].
    apply floors_of_In in Hfl as (r & Hr & E & Ef).
    assert (In r (group_rows df_filtered k fl)) as Hin
      by (apply group_rows_In; auto).
    destruct (group_rows df_filtered k fl); [contradiction|simpl; lia].
Qed.

Lemma sort_by_date_perm (df : list Row) : sort_by_date df ≡ₚ df.
Proof. apply merge_sort_Permutation. Qed.

Lemma kpi_summary_groups_witness :
  StronglySorted (key_before example_selection)
    (map group_key
       (kpi_summary sort_by_date example_df 1%float example_selection)).
Proof.
  refine (proj1 (proj2 (proj2
    (kpi_summary_groups sort_by_date example_df 1%float example_selection
       sort_by_date_perm _)))).
  unfold example_selection.
  constructor; [|constructor; [|constructor]]; simpl; intuition discriminate.
Defined.

(** * Binary64 arithmetic: rounding is monotone *)

Section Binary64Facts.

Local Open Scope Z_scope.

Lemma digits2_pos_dig (p : positive) : Zpos (digits2_pos p) = dig (Zpos p).
Proof.
  unfold dig. induction p as [p IH|p IH|]; simpl digits2_pos.
  - rewrite Pos2Z.inj_succ, IH. change (Zpos p~1) with (2 * Zpos p + 1).
    rewrite Z.log2_succ_double by lia. lia.
  - rewrite Pos2Z.inj_succ, IH. change (Zpos p~0) with (2 * Zpos p).
    rewrite Z.log2_double by lia. lia.
  - reflexivity.
Qed.

Lemma dig_bounds (m : Z) : 0 < m -> 2 ^ (dig m - 1) <= m < 2 ^ dig m.
Proof.
  intros H. unfold dig. replace (Z.log2 m + 1 - 1) with (Z.log2 m) by lia.
  apply Z.log2_spec in H. exact H.
Qed.

Lemma dig_pos (m : Z) : 0 < m -> 1 <= dig m.
Proof. intros H. unfold dig. pose proof (Z.log2_nonneg m). lia. Qed.

Lemma dig_unique (m d : Z) : 1 <= d -> 2 ^ (d - 1) <= m < 2 ^ d -> dig m = d.
Proof.
  intros Hd H. unfold dig.
  rewrite (Z.log2_unique m (d - 1)); [lia|lia|].
  replace (Z.succ (d - 1)) with d by lia. exact H.
Qed.

Lemma dig_shift (m t : Z) : 0 < m -> 0 <= t -> dig (m * 2 ^ t) = dig m + t.
Proof.
  intros Hm Ht. unfold dig. rewrite Z.log2_mul_pow2 by lia. lia.
Qed.

Lemma dig_mono (m1 m2 : Z) : 0 < m1 -> m1 <= m2 -> dig m1 <= dig m2.
Proof.
  intros H1 H2. unfold dig. pose proof (Z.log2_le_mono m1 m2 H2). lia.
Qed.

Lemma pow2_pos (k : Z) : 0 <= k -> 0 < 2 ^ k.
Proof. intros. apply Z.pow_pos_nonneg; lia. Qed.

Lemma pow2_succ (k : Z) : 0 <= k -> 2 ^ (k + 1) = 2 * 2 ^ k.
Proof. intros. rewrite Z.pow_add_r by lia. lia. Qed.

Lemma pow2_pred (k : Z) : 1 <= k -> 2 ^ k = 2 * 2 ^ (k - 1).
Proof.
  intros. replace k with (k - 1 + 1) at 1 by lia. apply pow2_succ. lia.
Qed.

Lemma pow2_le (a b : Z) : 0 <= a <= b -> 2 ^ a <= 2 ^ b.
Proof. intros. apply Z.pow_le_mono_r; lia. Qed.

Lemma pow2_lt (a b : Z) : 0 <= a < b -> 2 ^ a < 2 ^ b.
Proof. intros. apply Z.pow_lt_mono_r; lia. Qed.

(** ** Rounding an integer quotient *)

Lemma rne_bounds (m k : Z) :
  m / 2 ^ k <= rne m k <= m / 2 ^ k + 1.
Proof.
  unfold rne.
  destruct (m mod 2 ^ k <? 2 ^ (k - 1)); [lia|].
  destruct (2 ^ (k - 1) <? m mod 2 ^ k); [lia|].
  destruct (Z.even (m / 2 ^ k)); lia.
Qed.

Lemma rne_exact (m k : Z) : 1 <= k -> m mod 2 ^ k = 0 -> rne m k = m / 2 ^ k.
Proof.
  intros Hk H. unfold rne. rewrite H.
  pose proof (pow2_pos (k - 1) ltac:(lia)).
  destruct (0 <? 2 ^ (k - 1)) eqn:E; [reflexivity|].
  apply Z.ltb_ge in E. lia.
Qed.

Lemma rne_mono (m1 m2 k : Z) :
  1 <= k -> m1 <= m2 -> rne m1 k <= rne m2 k.
Proof.
  intros Hk Hm.
  pose proof (pow2_pos k ltac:(lia)) as Hp.
  pose proof (Z.div_le_mono m1 m2 (2 ^ k) Hp Hm) as Hq.
  destruct (Z.eq_dec (m1 / 2 ^ k) (m2 / 2 ^ k)) as [E|E].
  - pose proof (Z.div_mod m1 (2 ^ k) ltac:(lia)) as D1.
    pose proof (Z.div_mod m2 (2 ^ k) ltac:(lia)) as D2.
    assert (m1 mod 2 ^ k <= m2 mod 2 ^ k) as Hr by (rewrite E in D1; lia).
    unfold rne. rewrite E.
    destruct (m1 mod 2 ^ k <? 2 ^ (k - 1)) eqn:A1;
      destruct (m2 mod 2 ^ k <? 2 ^ (k - 1)) eqn:A2;
      destruct (2 ^ (k - 1) <? m1 mod 2 ^ k) eqn:B1;
      destruct (2 ^ (k - 1) <? m2 mod 2 ^ k) eqn:B2;
      destruct (Z.even (m2 / 2 ^ k)); lia.
  - pose proof (rne_bounds m1 k). pose proof (rne_bounds m2 k). lia.
Qed.

Lemma rne_scale (m k t : Z) :
  1 <= k -> 0 <= t -> rne (m * 2 ^ t) (k + t) = rne m k.
Proof.
  intros Hk Ht. unfold rne.
  pose proof (pow2_pos k ltac:(lia)) as Hp.
  pose proof (pow2_pos t ltac:(lia)) as Hpt.
  pose proof (pow2_pos (k - 1) ltac:(lia)) as Hph.
  rewrite (Z.pow_add_r 2 k t) by lia.
  rewrite Z.div_mul_cancel_r by lia.
  rewrite Z.mul_mod_distr_r by lia.
  replace (k + t - 1) with (k - 1 + t) by lia.
  rewrite (Z.pow_add_r 2 (k - 1) t) by lia.
  assert ((m mod 2 ^ k * 2 ^ t <? 2 ^ (k - 1) * 2 ^ t)
          = (m mod 2 ^ k <? 2 ^ (k - 1))) as ->.
  { destruct (m mod 2 ^ k <? 2 ^ (k - 1)) eqn:E.
    - apply Z.ltb_lt. apply Z.ltb_lt in E. nia.
    - apply Z.ltb_ge. apply Z.ltb_ge in E. nia. }
  assert ((2 ^ (k - 1) * 2 ^ t <? m mod 2 ^ k * 2 ^ t)
          = (2 ^ (k - 1) <? m mod 2 ^ k)) as ->.
  { destruct (2 ^ (k - 1) <? m mod 2 ^ k) eqn:E.
    - apply Z.ltb_lt. apply Z.ltb_lt in E. nia.
    - apply Z.ltb_ge. apply Z.ltb_ge in E. nia. }
  reflexivity.
Qed.

Lemma RN_scale (X S t : Z) : 0 <= t -> RN (X * 2 ^ t) (S + t) = RN X S.
Proof.
  intros Ht. unfold RN.
  destruct (S <=? 0) eqn:E1; destruct (S + t <=? 0) eqn:E2;
    try apply Z.leb_le in E1; try apply Z.leb_le in E2;
    try apply Z.leb_gt in E1; try apply Z.leb_gt in E2; try lia.
  - rewrite <- Z.mul_assoc, <- Z.pow_add_r by lia. f_equal. f_equal. lia.
  - assert (X * 2 ^ t = X * 2 ^ (- S) * 2 ^ (S + t)) as Hx.
    { rewrite <- Z.mul_assoc, <- Z.pow_add_r by lia. f_equal. f_equal. lia. }
    pose proof (pow2_pos (S + t) ltac:(lia)).
    rewrite rne_exact; [|lia|].
    + rewrite Hx. apply Z.div_mul. lia.
    + rewrite Hx. apply Z.mod_mul. lia.
  - now apply rne_scale; lia.
Qed.

Lemma RN_mono (X1 X2 S : Z) : X1 <= X2 -> RN X1 S <= RN X2 S.
Proof.
  intros H. unfold RN. destruct (S <=? 0) eqn:E.
  - apply Z.mul_le_mono_nonneg_r; [|exact H]. apply Z.pow_nonneg. lia.
  - apply Z.leb_gt in E. apply rne_mono; lia.
Qed.

Lemma RN_nonneg (X S : Z) : 0 <= X -> 0 <= RN X S.
Proof.
  intros H. unfold RN. destruct (S <=? 0) eqn:E.
  - apply Z.mul_nonneg_nonneg; [exact H|]. apply Z.pow_nonneg. lia.
  - apply Z.leb_gt in E. pose proof (rne_bounds X S).
    pose proof (Z.div_pos X (2 ^ S) H (pow2_pos S ltac:(lia))). lia.
Qed.

Lemma RN_upper (X S j : Z) :
  0 <= j -> 0 <= X < 2 ^ (S + j) -> RN X S <= 2 ^ j.
Proof.
  intros Hj HX. unfold RN. destruct (S <=? 0) eqn:E.
  - apply Z.leb_le in E.
    destruct (Z.le_gt_cases 0 (S + j)) as [L|L].
    + assert (2 ^ j = 2 ^ (S + j) * 2 ^ (- S)) as ->.
      { rewrite <- Z.pow_add_r by lia. f_equal. lia. }
      pose proof (pow2_pos (- S) ltac:(lia)). nia.
    + rewrite (Z.pow_neg_r 2 (S + j)) in HX by lia. lia.
  - apply Z.leb_gt in E.
    pose proof (rne_bounds X S).
    assert (X / 2 ^ S < 2 ^ j); [|lia].
    apply Z.div_lt_upper_bound; [apply pow2_pos; lia|].
    rewrite <- Z.pow_add_r by lia. lia.
Qed.

Lemma RN_lower (X S j : Z) :
  0 <= j -> 0 <= S + j -> 2 ^ (S + j) <= X -> 2 ^ j <= RN X S.
Proof.
  intros Hj HS HX. unfold RN. destruct (S <=? 0) eqn:E.
  - apply Z.leb_le in E.
    assert (2 ^ j = 2 ^ (S + j) * 2 ^ (- S)) as ->.
    { rewrite <- Z.pow_add_r by lia. f_equal. lia. }
    pose proof (pow2_pos (- S) ltac:(lia)). nia.
  - apply Z.leb_gt in E.
    pose proof (rne_bounds X S).
    assert (2 ^ j <= X / 2 ^ S); [|lia].
    apply Z.div_le_lower_bound; [apply pow2_pos; lia|].
    rewrite <- Z.pow_add_r by lia. lia.
Qed.

(** ** The shift register of [SpecFloat] *)

Lemma shr_1_spec (m : Z) (r s : bool) :
  0 <= m ->
  shr_1 {| shr_m := m; shr_r := r; shr_s := s |}
  = {| shr_m := Z.div2 m; shr_r := Z.odd m; shr_s := r || s |}.
Proof.
  intros Hm. destruct m as [|p|p]; [reflexivity| |lia].
  destruct p; reflexivity.
Qed.

Lemma shr_state_0 (m : Z) :
  shr_state m 0 = {| shr_m := m; shr_r := false; shr_s := false |}.
Proof. unfold shr_state. simpl. now rewrite Z.div_1_r. Qed.

Lemma shr_state_step (m k : Z) :
  0 <= m -> 0 <= k -> shr_1 (shr_state m k) = shr_state m (k + 1).
Proof.
  intros Hm Hk. unfold shr_state.
  pose proof (pow2_pos k Hk) as Hp.
  rewrite shr_1_spec by (apply Z.div_pos; lia).
  replace (k + 1 - 1) with k by lia.
  assert ((0 <? k + 1) = true) as -> by (apply Z.ltb_lt; lia).
  cbn [andb]. f_equal.
  - rewrite Z.div2_div, Z.div_div by lia. now rewrite pow2_succ, Z.mul_comm by lia.
  - destruct (Z.eq_dec k 0) as [->|Hk0].
    + simpl. now rewrite Z.mod_1_r.
    + assert ((0 <? k) = true) as -> by (apply Z.ltb_lt; lia).
      cbn [andb].
      pose proof (pow2_pos (k - 1) ltac:(lia)) as Hph.
      assert (m mod 2 ^ k
              = m mod 2 ^ (k - 1) + 2 ^ (k - 1) * ((m / 2 ^ (k - 1)) mod 2)) as Hmod.
      { rewrite (pow2_pred k) by lia. rewrite (Z.mul_comm 2).
        apply Z.rem_mul_r; lia. }
      pose proof (Z.mod_pos_bound m (2 ^ (k - 1)) Hph) as Hb.
      rewrite Zodd_mod. rewrite Hmod.
      pose proof (Z.mod_pos_bound (m / 2 ^ (k - 1)) 2 ltac:(lia)) as Hb2.
      destruct (Z.eqb_spec (m / 2 ^ (k - 1) mod 2) 1) as [E1|E1];
        destruct (Z.eqb_spec (m mod 2 ^ (k - 1)) 0) as [E2|E2];
        destruct (Z.eqb_spec
                    (m mod 2 ^ (k - 1) + 2 ^ (k - 1) * (m / 2 ^ (k - 1) mod 2)) 0)
          as [E3|E3];
        try reflexivity; nia.
Qed.

Lemma iter_pos_shr (p : positive) : forall m k,
  0 <= m -> 0 <= k ->
  SpecFloat.iter_pos shr_1 p (shr_state m k) = shr_state m (k + Zpos p).
Proof.
  induction p as [p IH|p IH|]; intros m k Hm Hk; cbn [SpecFloat.iter_pos].
  - rewrite shr_state_step, !IH by lia. f_equal. lia.
  - rewrite !IH by lia. f_equal. lia.
  - now apply shr_state_step.
Qed.

Lemma shr_spec (m e n : Z) :
  0 <= m ->
  shr {| shr_m := m; shr_r := false; shr_s := false |} e n
  = (shr_state m (Z.max 0 n), e + Z.max 0 n).
Proof.
  intros Hm. rewrite <- shr_state_0. unfold shr.
  destruct n as [|p|p].
  - simpl. now rewrite Z.add_0_r.
  - rewrite iter_pos_shr by lia. rewrite Z.max_r by lia. reflexivity.
  - rewrite Z.max_l by lia. now rewrite Z.add_0_r.
Qed.

Lemma round_shr_state (m k : Z) :
  0 <= m -> 0 <= k ->
  round_nearest_even (shr_m (shr_state m k)) (loc_of_shr_record (shr_state m k))
  = RN m k.
Proof.
  intros Hm Hk. unfold RN, shr_state. cbn [shr_m loc_of_shr_record].
  destruct (Z.eq_dec k 0) as [->|Hk0].
  - simpl. rewrite Z.div_1_r. lia.
  - assert ((k <=? 0) = false) as -> by (apply Z.leb_gt; lia).
    assert ((0 <? k) = true) as -> by (apply Z.ltb_lt; lia).
    cbn [andb]. unfold rne.
    pose proof (pow2_pos (k - 1) ltac:(lia)) as Hph.
    pose proof (pow2_pos k ltac:(lia)) as Hp.
    assert (m mod 2 ^ k
            = m mod 2 ^ (k - 1) + 2 ^ (k - 1) * ((m / 2 ^ (k - 1)) mod 2)) as Hmod.
    { rewrite (pow2_pred k) by lia. rewrite (Z.mul_comm 2).
      apply Z.rem_mul_r; lia. }
    pose proof (Z.mod_pos_bound m (2 ^ (k - 1)) Hph) as Hb.
    pose proof (Z.mod_pos_bound (m / 2 ^ (k - 1)) 2 ltac:(lia)) as Hb2.
    rewrite Zodd_mod, Hmod.
    destruct (Z.eqb_spec (m / 2 ^ (k - 1) mod 2) 1) as [E1|E1];
      destruct (Z.eqb_spec (m mod 2 ^ (k - 1)) 0) as [E2|E2];
      cbn [negb round_nearest_even].
    + rewrite E1, E2.
      assert ((0 + 2 ^ (k - 1) * 1 <? 2 ^ (k - 1)) = false) as ->
          by (apply Z.ltb_ge; lia).
      assert ((2 ^ (k - 1) <? 0 + 2 ^ (k - 1) * 1) = false) as ->
          by (apply Z.ltb_ge; lia).
      reflexivity.
    + rewrite E1.
      assert ((m mod 2 ^ (k - 1) + 2 ^ (k - 1) * 1 <? 2 ^ (k - 1)) = false) as ->
          by (apply Z.ltb_ge; lia).
      assert ((2 ^ (k - 1) <? m mod 2 ^ (k - 1) + 2 ^ (k - 1) * 1) = true) as ->
          by (apply Z.ltb_lt; lia).
      reflexivity.
    + assert (m / 2 ^ (k - 1) mod 2 = 0) as -> by lia. rewrite E2.
      assert ((0 + 2 ^ (k - 1) * 0 <? 2 ^ (k - 1)) = true) as ->
          by (apply Z.ltb_lt; lia).
      reflexivity.
    + assert (m / 2 ^ (k - 1) mod 2 = 0) as -> by lia.
      assert ((m mod 2 ^ (k - 1) + 2 ^ (k - 1) * 0 <? 2 ^ (k - 1)) = true) as ->
          by (apply Z.ltb_lt; lia).
      reflexivity.
Qed.

Lemma fexp_eq (e : Z) : fexp prec emax e = Z.max (e - 53) (-1074).
Proof. reflexivity. Qed.

Lemma RN_le_2_53 (m e : Z) :
  0 < m -> 0 <= RN m (fexp prec emax (dig m + e) - e) <= 2 ^ 53.
Proof.
  intros Hm. split; [apply RN_nonneg; lia|].
  apply RN_upper; [lia|]. split; [lia|].
  pose proof (dig_bounds m Hm) as [_ Hd]. pose proof (dig_pos m Hm).
  eapply Z.lt_le_trans; [exact Hd|]. apply pow2_le. rewrite fexp_eq. lia.
Qed.

Lemma round_model_scale (s : bool) (m e t : Z) :
  0 < m -> 0 <= t -> round_model s (m * 2 ^ t) (e - t) = round_model s m e.
Proof.
  intros Hm Ht. unfold round_model.
  rewrite dig_shift by lia.
  replace (dig m + t + (e - t)) with (dig m + e) by lia.
  replace (fexp prec emax (dig m + e) - (e - t))
    with (fexp prec emax (dig m + e) - e + t) by lia.
  now rewrite RN_scale by lia.
Qed.

Lemma Zdigits2_dig (m : Z) : 0 < m -> Zdigits2 m = dig m.
Proof.
  intros Hm. destruct m as [|p|p]; try lia. apply digits2_pos_dig.
Qed.

Lemma binary_round_aux_model (s : bool) (m e : Z) :
  0 < m -> e <= fexp prec emax (dig m + e) ->
  binary_round_aux prec emax s m e loc_Exact = round_model s m e.
Proof.
  intros Hm He. unfold binary_round_aux, shr_fexp, round_model.
  rewrite (Zdigits2_dig m Hm).
  set (eps := fexp prec emax (dig m + e)) in *.
  cbn [shr_record_of_loc].
  rewrite shr_spec by lia.
  rewrite (Z.max_r 0 (eps - e)) by lia.
  rewrite round_shr_state by lia.
  replace (e + (eps - e)) with eps by lia.
  pose proof (RN_le_2_53 m e Hm) as HN. fold eps in HN.
  set (N := RN m (eps - e)) in *.
  assert (-1074 <= eps) as Heps by (unfold eps; rewrite fexp_eq; lia).
  rewrite shr_spec by lia.
  destruct (Z.eqb_spec N 0) as [E0|E0].
  - rewrite E0. cbn [Zdigits2]. rewrite fexp_eq.
    rewrite Z.max_l by lia. unfold shr_state. cbn [shr_m].
    now rewrite Z.div_0_l by lia.
  - rewrite (Zdigits2_dig N) by lia.
    destruct (Z.eqb_spec N (2 ^ 53)) as [E1|E1].
    + rewrite E1. change (dig (2 ^ 53)) with 54. rewrite fexp_eq.
      replace (Z.max (54 + eps - 53) (-1074) - eps) with 1 by lia.
      change (Z.max 0 1) with 1. unfold shr_state. cbn [shr_m].
      change (2 ^ 53 / 2 ^ 1) with (Zpos (Z.to_pos (2 ^ 52))).
      cbv iota. reflexivity.
    + assert (dig N <= 53) as HdN.
      { destruct (Z.le_gt_cases (dig N) 53) as [L|L]; [exact L|].
        pose proof (dig_bounds N ltac:(lia)) as [Hlo _].
        pose proof (pow2_le 53 (dig N - 1) ltac:(lia)). lia. }
      rewrite fexp_eq. rewrite (Z.max_l 0) by lia.
      unfold shr_state. cbn [shr_m]. rewrite Z.div_1_r, Z.add_0_r.
      destruct N as [|p|p]; try lia. reflexivity.
Qed.

Lemma iter_xO (d m : positive) : Zpos (Pos.iter xO m d) = Zpos m * 2 ^ Zpos d.
Proof.
  induction d as [|d IH] using Pos.peano_ind.
  - simpl. lia.
  - rewrite Pos.iter_succ, Pos2Z.inj_xO, IH, Pos2Z.inj_succ.
    rewrite <- Z.add_1_r, pow2_succ by lia. lia.
Qed.

Lemma shl_align_spec (m : positive) (e e' : Z) :
  shl_align m e e'
  = if e' <? e then (Z.to_pos (Zpos m * 2 ^ (e - e')), e') else (m, e).
Proof.
  unfold shl_align. destruct (e' - e) as [|d|d] eqn:E.
  - assert ((e' <? e) = false) as -> by (apply Z.ltb_ge; lia). reflexivity.
  - assert ((e' <? e) = false) as -> by (apply Z.ltb_ge; lia). reflexivity.
  - assert ((e' <? e) = true) as -> by (apply Z.ltb_lt; lia).
    replace (e - e') with (Zpos d) by lia.
    now rewrite <- iter_xO, Pos2Z.id.
Qed.

Lemma binary_round_model (s : bool) (m : positive) (e : Z) :
  binary_round prec emax s m e = round_model s (Zpos m) e.
Proof.
  unfold binary_round. rewrite shl_align_spec, digits2_pos_dig.
  set (eps := fexp prec emax (dig (Zpos m) + e)).
  destruct (Z.ltb_spec eps e) as [L|L].
  - pose proof (pow2_pos (e - eps) ltac:(lia)).
    rewrite Z2Pos.id by lia.
    rewrite binary_round_aux_model; [| lia |].
    + replace eps with (e - (e - eps)) at 2 by lia.
      now apply round_model_scale; lia.
    + rewrite dig_shift by lia.
      replace (dig (Zpos m) + (e - eps) + eps) with (dig (Zpos m) + e) by lia.
      fold eps. lia.
  - apply binary_round_aux_model; [lia|]. fold eps. lia.
Qed.

(** ** The order of [SFcompare] *)

Lemma compare_cont_Eq (p q : positive) : Pos.compare_cont Eq p q = (p ?= q)%positive.
Proof. reflexivity. Qed.

Ltac cmp_cases :=
  repeat match goal with
  | |- context [PosDef.Pos.compare_cont Eq ?a ?b] =>
      change (PosDef.Pos.compare_cont Eq a b) with (Pos.compare a b)
  | |- context [(?a ?= ?b)%Z] => destruct (Z.compare_spec a b)
  | |- context [(?a ?= ?b)%positive] => destruct (Pos.compare_spec a b)
  end.

Lemma SFleb_trans (x y z : spec_float) :
  SFleb x y = true -> SFleb y z = true -> SFleb x z = true.
Proof.
  unfold SFleb.
  destruct x as [sx|sx| |sx mx ex], y as [sy|sy| |sy my ey],
    z as [sz|sz| |sz mz ez]; cbn [SFcompare];
    try destruct sx; try destruct sy; try destruct sz;
    try discriminate; try reflexivity;
    rewrite ?compare_cont_Eq;
    cmp_cases; cbn [CompOpp]; try discriminate; try reflexivity;
    intros; try discriminate; lia.
Qed.

Lemma SFltb_leb_trans (x y z : spec_float) :
  SFltb x y = true -> SFleb y z = true -> SFltb x z = true.
Proof.
  unfold SFleb, SFltb.
  destruct x as [sx|sx| |sx mx ex], y as [sy|sy| |sy my ey],
    z as [sz|sz| |sz mz ez]; cbn [SFcompare];
    try destruct sx; try destruct sy; try destruct sz;
    try discriminate; try reflexivity;
    rewrite ?compare_cont_Eq;
    cmp_cases; cbn [CompOpp]; try discriminate; try reflexivity;
    intros; try discriminate; lia.
Qed.

Lemma SFleb_ltb_trans (x y z : spec_float) :
  SFleb x y = true -> SFltb y z = true -> SFltb x z = true.
Proof.
  unfold SFleb, SFltb.
  destruct x as [sx|sx| |sx mx ex], y as [sy|sy| |sy my ey],
    z as [sz|sz| |sz mz ez]; cbn [SFcompare];
    try destruct sx; try destruct sy; try destruct sz;
    try discriminate; try reflexivity;
    rewrite ?compare_cont_Eq;
    cmp_cases; cbn [CompOpp]; try discriminate; try reflexivity;
    intros; try discriminate; lia.
Qed.

Lemma SFleb_refl (x : spec_float) : x <> S754_nan -> SFleb x x = true.
Proof.
  unfold SFleb. destruct x as [s|s| |s m e]; cbn [SFcompare];
    try destruct s; try congruence;
    rewrite ?compare_cont_Eq, Z.compare_refl, Pos.compare_refl; reflexivity.
Qed.

Lemma SFleb_not_ltb (x y : spec_float) : SFleb y x = true -> SFltb x y = false.
Proof.
  unfold SFleb, SFltb.
  destruct x as [sx|sx| |sx mx ex], y as [sy|sy| |sy my ey]; cbn [SFcompare];
    try destruct sx; try destruct sy;
    try discriminate; try reflexivity;
    rewrite ?compare_cont_Eq;
    cmp_cases; cbn [CompOpp]; try discriminate; try reflexivity;
    intros; try discriminate; lia.
Qed.

Lemma SFleb_opp (x y : spec_float) : SFleb (SFopp x) (SFopp y) = SFleb y x.
Proof.
  unfold SFleb.
  destruct x as [sx|sx| |sx mx ex], y as [sy|sy| |sy my ey];
    cbn [SFcompare SFopp];
    try destruct sx; try destruct sy; cbn [negb]; try reflexivity;
    rewrite ?compare_cont_Eq;
    cmp_cases; cbn [CompOpp]; try discriminate; try reflexivity; lia.
Qed.

Lemma SFleb_nan_l (y : spec_float) : SFleb S754_nan y = false.
Proof. reflexivity. Qed.

Lemma SFleb_nan_r (x : spec_float) : SFleb x S754_nan = false.
Proof. destruct x; reflexivity. Qed.

(** ** Rounding is monotone *)

Lemma SFleb_fin (N1 N2 e1 e2 : Z) :
  0 < N1 -> 0 < N2 -> e1 < e2 \/ (e1 = e2 /\ N1 <= N2) ->
  SFleb (S754_finite false (Z.to_pos N1) e1) (S754_finite false (Z.to_pos N2) e2)
  = true.
Proof.
  intros H1 H2 H. unfold SFleb. cbn [SFcompare].
  cmp_cases; try reflexivity; lia.
Qed.

Lemma round_model_mono_same (m1 m2 e : Z) :
  0 < m1 -> m1 <= m2 ->
  SFleb (round_model false m1 e) (round_model false m2 e) = true.
Proof.
  intros H1 H12. unfold round_model.
  pose proof (RN_le_2_53 m1 e H1) as HN1.
  pose proof (RN_le_2_53 m2 e ltac:(lia)) as HN2.
  pose proof (dig_mono m1 m2 H1 H12) as Hd.
  pose proof (dig_pos m2 ltac:(lia)) as Hd2.
  pose proof (dig_bounds m2 ltac:(lia)) as [Hlo2 _].
  assert (fexp prec emax (dig m1 + e) = fexp prec emax (dig m2 + e) ->
          RN m1 (fexp prec emax (dig m1 + e) - e)
          <= RN m2 (fexp prec emax (dig m2 + e) - e)) as Hsame.
  { intros ->. now apply RN_mono. }
  assert (fexp prec emax (dig m1 + e) < fexp prec emax (dig m2 + e) ->
          2 ^ 52 <= RN m2 (fexp prec emax (dig m2 + e) - e)) as Hdiff.
  { rewrite !fexp_eq. intros L. apply RN_lower; [lia|lia|].
    eapply Z.le_trans; [|exact Hlo2]. apply pow2_le. lia. }
  assert (fexp prec emax (dig m1 + e) <= fexp prec emax (dig m2 + e)) as Hle
    by (rewrite !fexp_eq; lia).
  set (eps1 := fexp prec emax (dig m1 + e)) in *.
  set (eps2 := fexp prec emax (dig m2 + e)) in *.
  set (N1 := RN m1 (eps1 - e)) in *.
  set (N2 := RN m2 (eps2 - e)) in *.
  change (2 ^ 53) with 9007199254740992 in *.
  change (2 ^ 52) with 4503599627370496 in *.
  destruct (Z.eqb_spec N1 0); destruct (Z.eqb_spec N2 0);
    destruct (Z.eqb_spec N1 9007199254740992);
    destruct (Z.eqb_spec N2 9007199254740992);
    destruct (Z.leb_spec (eps1 + 1) 971); destruct (Z.leb_spec (eps2 + 1) 971);
    destruct (Z.leb_spec eps1 971); destruct (Z.leb_spec eps2 971);
    try reflexivity; try (exfalso; lia);
    apply SFleb_fin; lia.
Qed.

Lemma round_model_mono (m1 e1 m2 e2 E0 : Z) :
  0 < m1 -> E0 <= e1 -> E0 <= e2 ->
  m1 * 2 ^ (e1 - E0) <= m2 * 2 ^ (e2 - E0) ->
  SFleb (round_model false m1 e1) (round_model false m2 e2) = true.
Proof.
  intros H1 He1 He2 H.
  pose proof (pow2_pos (e1 - E0) ltac:(lia)).
  pose proof (pow2_pos (e2 - E0) ltac:(lia)).
  assert (0 < m2) by nia.
  rewrite <- (round_model_scale false m1 e1 (e1 - E0)) by lia.
  rewrite <- (round_model_scale false m2 e2 (e2 - E0)) by lia.
  replace (e1 - (e1 - E0)) with E0 by lia.
  replace (e2 - (e2 - E0)) with E0 by lia.
  apply round_model_mono_same; nia.
Qed.

Lemma round_model_opp (m e : Z) :
  round_model true m e = SFopp (round_model false m e).
Proof.
  unfold round_model.
  repeat match goal with |- context [if ?b then _ else _] => destruct b end;
    reflexivity.
Qed.

(** the results of rounding a positive value are zero, positive or +oo *)
Lemma round_model_nonneg (m e : Z) :
  SFleb (S754_zero false) (round_model false m e) = true.
Proof.
  unfold round_model.
  repeat match goal with |- context [if ?b then _ else _] => destruct b end;
    reflexivity.
Qed.

Lemma round_model_not_nan (s : bool) (m e : Z) : round_model s m e <> S754_nan.
Proof.
  unfold round_model.
  repeat match goal with |- context [if ?b then _ else _] => destruct b end;
    discriminate.
Qed.

Lemma binary_normalize_model (M e : Z) :
  binary_normalize prec emax M e false
  = match M with
    | Z0 => S754_zero false
    | Zpos _ => round_model false M e
    | Zneg _ => round_model true (- M) e
    end.
Proof.
  destruct M as [|p|p]; cbn [binary_normalize]; [reflexivity| |];
    now rewrite binary_round_model.
Qed.

Lemma binary_normalize_not_nan (M e : Z) :
  binary_normalize prec emax M e false <> S754_nan.
Proof.
  rewrite binary_normalize_model.
  destruct M; try discriminate; apply round_model_not_nan.
Qed.

Lemma binary_normalize_scale (M e t : Z) :
  0 <= t ->
  binary_normalize prec emax (M * 2 ^ t) (e - t) false
  = binary_normalize prec emax M e false.
Proof.
  intros Ht. rewrite !binary_normalize_model.
  pose proof (pow2_pos t Ht) as Hp.
  destruct M as [|p|p].
  - reflexivity.
  - destruct (Zpos p * 2 ^ t) eqn:E; try lia.
    rewrite <- E. apply round_model_scale; lia.
  - destruct (Zneg p * 2 ^ t) eqn:E; try lia.
    rewrite <- E. replace (- (Zneg p * 2 ^ t)) with (Zpos p * 2 ^ t) by lia.
    apply round_model_scale; lia.
Qed.

Lemma binary_normalize_mono_same (M1 M2 e : Z) :
  M1 <= M2 ->
  SFleb (binary_normalize prec emax M1 e false)
        (binary_normalize prec emax M2 e false) = true.
Proof.
  intros H. rewrite !binary_normalize_model.
  destruct M1 as [|p1|p1], M2 as [|p2|p2]; try lia.
  - reflexivity.
  - apply round_model_nonneg.
  - apply round_model_mono_same; lia.
  - rewrite round_model_opp.
    change (S754_zero false) with (SFopp (S754_zero true)).
    rewrite SFleb_opp.
    eapply SFleb_trans; [|apply round_model_nonneg]. reflexivity.
  - rewrite round_model_opp.
    apply SFleb_trans with (y := S754_zero false); [|apply round_model_nonneg].
    change (S754_zero false) with (SFopp (S754_zero true)).
    rewrite SFleb_opp.
    eapply SFleb_trans; [|apply round_model_nonneg]. reflexivity.
  - rewrite !round_model_opp, SFleb_opp.
    apply round_model_mono_same; lia.
Qed.

Lemma valid_fin (s : bool) (m : positive) (e : Z) :
  valid_binary (S754_finite s m e) = true ->
  -1074 <= e <= 971 /\ dig (Zpos m) <= 53 /\ (-1074 < e -> dig (Zpos m) = 53).
Proof.
  cbn [SpecFloat.valid_binary]. unfold bounded, canonical_mantissa.
  rewrite andb_true_iff, digits2_pos_dig, fexp_eq, Z.eqb_eq, Z.leb_le.
  change (emax - prec) with 971. lia.
Qed.

Lemma round_model_fixed (s : bool) (m : positive) (e : Z) :
  valid_binary (S754_finite s m e) = true ->
  round_model s (Zpos m) e = S754_finite s m e.
Proof.
  intros Hv. apply valid_fin in Hv as (He & Hd & Hn).
  unfold round_model. rewrite fexp_eq.
  replace (Z.max (dig (Zpos m) + e - 53) (-1074)) with e by lia.
  unfold RN. rewrite Z.sub_diag. cbn [Z.leb Z.compare Z.opp Z.pow].
  rewrite Z.mul_1_r.
  pose proof (dig_bounds (Zpos m) ltac:(lia)) as [_ Hhi].
  pose proof (pow2_le (dig (Zpos m)) 53 ltac:(pose proof (dig_pos (Zpos m)); lia)).
  destruct (Z.eqb_spec (Zpos m) 0); [lia|].
  destruct (Z.eqb_spec (Zpos m) (2 ^ 53)); [lia|].
  destruct (Z.leb_spec e 971); [|lia].
  now rewrite Pos2Z.id.
Qed.

Lemma ulps_normalize (x : spec_float) :
  valid_binary x = true -> is_fz x = true ->
  SFleb x (binary_normalize prec emax (ulps x) (-1074) false) = true
  /\ SFleb (binary_normalize prec emax (ulps x) (-1074) false) x = true.
Proof.
  intros Hv Hfz. destruct x as [s| | |s m e]; try discriminate.
  - destruct s; split; reflexivity.
  - pose proof (valid_fin s m e Hv) as (He & _).
    assert (binary_normalize prec emax (ulps (S754_finite s m e)) (-1074) false
            = S754_finite s m e) as ->.
    { cbn [ulps]. rewrite binary_normalize_model.
      pose proof (pow2_pos (e + 1074) ltac:(lia)) as Hp.
      destruct s.
      - destruct (-1 * (Zpos m * 2 ^ (e + 1074))) eqn:E; try lia.
        rewrite <- E.
        replace (- (-1 * (Zpos m * 2 ^ (e + 1074)))) with (Zpos m * 2 ^ (e + 1074)) by lia.
        replace (-1074) with (e - (e + 1074)) by lia.
        rewrite round_model_scale by lia. now apply round_model_fixed.
      - destruct (1 * (Zpos m * 2 ^ (e + 1074))) eqn:E; try lia.
        rewrite <- E, Z.mul_1_l.
        replace (-1074) with (e - (e + 1074)) by lia.
        rewrite round_model_scale by lia. now apply round_model_fixed. }
    split; apply SFleb_refl; discriminate.
Qed.

Lemma pos_val_lt (m1 m2 : positive) (e1 e2 : Z) (s1 s2 : bool) :
  valid_binary (S754_finite s1 m1 e1) = true ->
  valid_binary (S754_finite s2 m2 e2) = true ->
  e1 < e2 ->
  Zpos m1 * 2 ^ (e1 + 1074) < Zpos m2 * 2 ^ (e2 + 1074).
Proof.
  intros H1 H2 L.
  apply valid_fin in H1 as (He1 & Hd1 & _).
  apply valid_fin in H2 as (He2 & _ & Hn2).
  specialize (Hn2 ltac:(lia)).
  pose proof (dig_bounds (Zpos m1) ltac:(lia)) as [_ Hhi].
  pose proof (dig_bounds (Zpos m2) ltac:(lia)) as [Hlo _].
  rewrite Hn2 in Hlo.
  pose proof (pow2_le (dig (Zpos m1)) 53 ltac:(pose proof (dig_pos (Zpos m1)); lia)).
  pose proof (pow2_pos (e1 + 1074) ltac:(lia)).
  assert (2 ^ (e2 + 1074) = 2 ^ (e2 - e1 - 1) * (2 * 2 ^ (e1 + 1074))) as ->.
  { rewrite <- pow2_succ, <- Z.pow_add_r by lia. f_equal. lia. }
  pose proof (pow2_pos (e2 - e1 - 1) ltac:(lia)).
  change (2 ^ (53 - 1)) with 4503599627370496 in Hlo.
  change (2 ^ 53) with 9007199254740992 in *.
  set (P := 2 ^ (e1 + 1074)) in *. set (Q := 2 ^ (e2 - e1 - 1)) in *.
  assert (Zpos m1 * P < 9007199254740992 * P) by nia.
  assert (9007199254740992 * P <= Zpos m2 * (2 * P)) by nia.
  assert (Zpos m2 * (2 * P) <= Zpos m2 * (Q * (2 * P))) by nia.
  lia.
Qed.

Lemma ulps_le (a b : spec_float) :
  valid_binary a = true -> valid_binary b = true ->
  is_fz a = true -> is_fz b = true ->
  SFleb a b = true -> ulps a <= ulps b.
Proof.
  intros Va Vb Fa Fb.
  destruct a as [sa| | |sa ma ea], b as [sb| | |sb mb eb]; try discriminate;
    unfold SFleb; cbn [SFcompare ulps]; try (intros _; lia).
  - pose proof (valid_fin _ _ _ Vb) as (He & _).
    pose proof (pow2_pos (eb + 1074) ltac:(lia)).
    destruct sb; [discriminate|intros _; nia].
  - pose proof (valid_fin _ _ _ Va) as (He & _).
    pose proof (pow2_pos (ea + 1074) ltac:(lia)).
    destruct sa; [intros _; nia|discriminate].
  - pose proof (valid_fin _ _ _ Va) as (Hea & _).
    pose proof (valid_fin _ _ _ Vb) as (Heb & _).
    pose proof (pow2_pos (ea + 1074) ltac:(lia)).
    pose proof (pow2_pos (eb + 1074) ltac:(lia)).
    pose proof (fun L => pos_val_lt ma mb ea eb sa sb Va Vb L) as Hab.
    pose proof (fun L => pos_val_lt mb ma eb ea sb sa Vb Va L) as Hba.
    destruct sa, sb; try discriminate; try (intros _; nia);
      cmp_cases; cbn [CompOpp]; try discriminate; intros _;
      try (subst eb; nia);
      first [specialize (Hab ltac:(lia)) | specialize (Hba ltac:(lia))]; lia.
Qed.

(** ** Addition *)

Lemma shl_align_fst (m : positive) (e ez : Z) :
  ez <= e -> Zpos (fst (shl_align m e ez)) = Zpos m * 2 ^ (e - ez).
Proof.
  intros H. rewrite shl_align_spec. destruct (Z.ltb_spec ez e) as [L|L]; cbn [fst].
  - pose proof (pow2_pos (e - ez) ltac:(lia)). rewrite Z2Pos.id; lia.
  - replace (e - ez) with 0 by lia. lia.
Qed.

Lemma cond_Zopp_mul (s : bool) (m : Z) :
  cond_Zopp s m = (if s then -1 else 1) * m.
Proof. destruct s; unfold cond_Zopp; lia. Qed.

(** On finite operands the sum is the rounding of the exact sum of the
    values. *)
Lemma SFadd_fin_fin (sx sy : bool) (mx my : positive) (ex ey : Z) :
  -1074 <= ex -> -1074 <= ey ->
  SFadd prec emax (S754_finite sx mx ex) (S754_finite sy my ey)
  = binary_normalize prec emax
      (ulps (S754_finite sx mx ex) + ulps (S754_finite sy my ey)) (-1074) false.
Proof.
  intros Hx Hy. cbn [SFadd ulps].
  set (ez := Z.min ex ey).
  rewrite !cond_Zopp_mul, !shl_align_fst by (unfold ez; lia).
  replace (-1074) with (ez - (ez + 1074)) by lia.
  rewrite <- (binary_normalize_scale _ ez (ez + 1074)) by (unfold ez; lia).
  f_equal.
  assert (2 ^ (ex + 1074) = 2 ^ (ex - ez) * 2 ^ (ez + 1074)) as ->.
  { rewrite <- Z.pow_add_r by (unfold ez; lia). f_equal. lia. }
  assert (2 ^ (ey + 1074) = 2 ^ (ey - ez) * 2 ^ (ez + 1074)) as ->.
  { rewrite <- Z.pow_add_r by (unfold ez; lia). f_equal. lia. }
  ring.
Qed.

Lemma SFadd_fz (x y : spec_float) :
  valid_binary x = true -> valid_binary y = true ->
  is_fz x = true -> is_fz y = true ->
  SFleb (SFadd prec emax x y)
        (binary_normalize prec emax (ulps x + ulps y) (-1074) false) = true
  /\ SFleb (binary_normalize prec emax (ulps x + ulps y) (-1074) false)
           (SFadd prec emax x y) = true.
Proof.
  intros Vx Vy Fx Fy.
  destruct x as [sx| | |sx mx ex], y as [sy| | |sy my ey]; try discriminate.
  - destruct sx, sy; split; reflexivity.
  - change (SFadd prec emax (S754_zero sx) (S754_finite sy my ey))
      with (S754_finite sy my ey).
    change (ulps (S754_zero sx)) with 0. rewrite Z.add_0_l.
    now apply ulps_normalize.
  - change (SFadd prec emax (S754_finite sx mx ex) (S754_zero sy))
      with (S754_finite sx mx ex).
    change (ulps (S754_zero sy)) with 0. rewrite Z.add_0_r.
    now apply ulps_normalize.
  - pose proof (valid_fin _ _ _ Vx) as (Hx & _).
    pose proof (valid_fin _ _ _ Vy) as (Hy & _).
    rewrite SFadd_fin_fin by lia.
    split; apply SFleb_refl, binary_normalize_not_nan.
Qed.

(** anything that is not NaN lies between the infinities *)
Lemma SFleb_ninf (x : spec_float) :
  x <> S754_nan -> SFleb (S754_infinity true) x = true.
Proof. destruct x as [s|s| |s m e]; try destruct s; try congruence; reflexivity. Qed.

Lemma SFleb_pinf (x : spec_float) :
  x <> S754_nan -> SFleb x (S754_infinity false) = true.
Proof. destruct x as [s|s| |s m e]; try destruct s; try congruence; reflexivity. Qed.

Lemma SFadd_mono (x a b : spec_float) :
  valid_binary x = true -> valid_binary a = true -> valid_binary b = true ->
  SFleb a b = true ->
  SFadd prec emax x a <> S754_nan -> SFadd prec emax x b <> S754_nan ->
  SFleb (SFadd prec emax x a) (SFadd prec emax x b) = true.
Proof.
  intros Vx Va Vb Hab Na Nb.
  destruct (is_fz x) eqn:Fx; [destruct (is_fz a) eqn:Fa;
                               [destruct (is_fz b) eqn:Fb|]|].
  - destruct (SFadd_fz x a Vx Va Fx Fa) as [Ha1 _].
    destruct (SFadd_fz x b Vx Vb Fx Fb) as [_ Hb2].
    eapply SFleb_trans; [exact Ha1|].
    eapply SFleb_trans; [|exact Hb2].
    apply binary_normalize_mono_same.
    pose proof (ulps_le a b Va Vb Fa Fb Hab). lia.
  - (* b is infinite *)
    destruct b as [sb|sb| |sb mb eb]; try discriminate.
    + destruct sb.
      * destruct a as [sa|sa| |sa ma ea]; try destruct sa; discriminate.
      * assert (SFadd prec emax x (S754_infinity false) = S754_infinity false) as ->
          by (destruct x as [sx|sx| |sx mx ex]; try discriminate; reflexivity).
        now apply SFleb_pinf.
    + destruct a; discriminate.
  - (* a is infinite *)
    destruct a as [sa|sa| |sa ma ea]; try discriminate.
    destruct sa.
    + assert (SFadd prec emax x (S754_infinity true) = S754_infinity true) as ->
        by (destruct x as [sx|sx| |sx mx ex]; try discriminate; reflexivity).
      now apply SFleb_ninf.
    + destruct b as [sb|sb| |sb mb eb]; try destruct sb; try discriminate.
      apply SFleb_refl. exact Na.
  - (* x is infinite or NaN *)
    destruct x as [sx|sx| |sx mx ex]; try discriminate.
    + destruct a as [sa|sa| |sa ma ea], b as [sb|sb| |sb mb eb];
        try destruct sx; try destruct sa; try destruct sb;
        try discriminate; try reflexivity;
        try (exfalso; apply Na; reflexivity);
        try (exfalso; apply Nb; reflexivity).
    + exfalso. apply Na. reflexivity.
Qed.

(** ** Multiplication, subtraction and square root *)

Lemma dig_mul_lower (m1 m2 : Z) :
  0 < m1 -> 0 < m2 -> dig m1 + dig m2 - 1 <= dig (m1 * m2).
Proof.
  intros H1 H2.
  pose proof (dig_bounds m1 H1) as [L1 _]. pose proof (dig_bounds m2 H2) as [L2 _].
  pose proof (dig_pos m1 H1). pose proof (dig_pos m2 H2).
  assert (2 ^ (dig m1 + dig m2 - 2) <= m1 * m2) as L.
  { replace (dig m1 + dig m2 - 2) with ((dig m1 - 1) + (dig m2 - 1)) by lia.
    rewrite Z.pow_add_r by lia.
    pose proof (pow2_pos (dig m1 - 1) ltac:(lia)).
    pose proof (pow2_pos (dig m2 - 1) ltac:(lia)). nia. }
  apply Z.log2_le_mono in L. rewrite Z.log2_pow2 in L by lia.
  unfold dig at 3. lia.
Qed.

Lemma SFmul_fin_fin (sa sd : bool) (ma md : positive) (ea ed : Z) :
  valid_binary (S754_finite sa ma ea) = true ->
  valid_binary (S754_finite sd md ed) = true ->
  SFmul prec emax (S754_finite sa ma ea) (S754_finite sd md ed)
  = round_model (xorb sa sd) (Zpos ma * Zpos md) (ea + ed).
Proof.
  intros Va Vd. cbn [SFmul]. rewrite Pos2Z.inj_mul.
  apply binary_round_aux_model; [lia|].
  apply valid_fin in Va as (Hea & Hda & Hna).
  apply valid_fin in Vd as (Hed & Hdd & Hnd).
  pose proof (dig_mul_lower (Zpos ma) (Zpos md) ltac:(lia) ltac:(lia)).
  pose proof (dig_pos (Zpos ma) ltac:(lia)). pose proof (dig_pos (Zpos md) ltac:(lia)).
  rewrite fexp_eq. lia.
Qed.

Lemma SFmul_mono (a b d : spec_float) :
  valid_binary a = true -> valid_binary b = true -> valid_binary d = true ->
  SFltb (S754_zero false) a = true ->
  SFleb a b = true ->
  SFleb (S754_zero false) d = true ->
  SFmul prec emax b d <> S754_nan ->
  SFleb (SFmul prec emax a d) (SFmul prec emax b d) = true.
Proof.
  intros Va Vb Vd Pa Hab Pd Nb.
  destruct a as [sa|sa| |sa ma ea]; try destruct sa; try discriminate;
    destruct b as [sb|sb| |sb mb eb]; try destruct sb; try discriminate;
    destruct d as [sd|sd| |sd md ed]; try destruct sd; try discriminate;
    try reflexivity; try (exfalso; apply Nb; reflexivity).
  - (* finite * finite <= +oo * finite *)
    rewrite SFmul_fin_fin by assumption.
    change (SFmul prec emax (S754_infinity false) (S754_finite false md ed))
      with (S754_infinity false).
    apply SFleb_pinf, round_model_not_nan.
  - (* finite * finite <= finite * finite *)
    rewrite !SFmul_fin_fin by assumption. cbn [xorb].
    pose proof (ulps_le _ _ Va Vb eq_refl eq_refl Hab) as Hu. cbn [ulps] in Hu.
    pose proof (valid_fin _ _ _ Va) as (Hea & _).
    pose proof (valid_fin _ _ _ Vb) as (Heb & _).
    pose proof (valid_fin _ _ _ Vd) as (Hed & _).
    apply (round_model_mono _ _ _ _ (-2148)); [lia|lia|lia|].
    match goal with
    | |- _ * 2 ^ ?u <= _ * 2 ^ ?v =>
        replace u with ((ea + 1074) + (ed + 1074)) by lia;
        replace v with ((eb + 1074) + (ed + 1074)) by lia
    end.
    rewrite (Z.pow_add_r 2 (ea + 1074) (ed + 1074)),
      (Z.pow_add_r 2 (eb + 1074) (ed + 1074)) by lia.
    pose proof (pow2_pos (ed + 1074) ltac:(lia)).
    set (PA := 2 ^ (ea + 1074)) in *. set (PB := 2 ^ (eb + 1074)) in *.
    set (PD := 2 ^ (ed + 1074)) in *.
    replace (Zpos ma * Zpos md * (PA * PD)) with (Zpos ma * PA * (Zpos md * PD)) by ring.
    replace (Zpos mb * Zpos md * (PB * PD)) with (Zpos mb * PB * (Zpos md * PD)) by ring.
    apply Z.mul_le_mono_nonneg_r; lia.
Qed.

Lemma SFmul_nonneg (a d : spec_float) :
  valid_binary a = true -> valid_binary d = true ->
  SFltb (S754_zero false) a = true ->
  SFleb (S754_zero false) d = true ->
  SFmul prec emax a d <> S754_nan ->
  SFleb (S754_zero false) (SFmul prec emax a d) = true.
Proof.
  intros Va Vd Pa Pd Na.
  destruct a as [sa|sa| |sa ma ea]; try destruct sa; try discriminate;
    destruct d as [sd|sd| |sd md ed]; try destruct sd; try discriminate;
    try reflexivity; try (exfalso; apply Na; reflexivity).
  rewrite SFmul_fin_fin by assumption. apply round_model_nonneg.
Qed.

Lemma SFsub_add_opp (x y : spec_float) :
  SFsub prec emax x y = SFadd prec emax x (SFopp y).
Proof.
  destruct x as [sx|sx| |sx mx ex], y as [sy|sy| |sy my ey];
    try destruct sx; try destruct sy; try reflexivity;
    cbn [SFsub SFadd SFopp negb]; f_equal; unfold cond_Zopp; lia.
Qed.

Lemma valid_opp (x : spec_float) : valid_binary (SFopp x) = valid_binary x.
Proof. destruct x; reflexivity. Qed.

Lemma binary_round_aux_sign (m e : Z) (l : location) :
  binary_round_aux prec emax false m e l = S754_nan
  \/ SFleb (S754_zero false) (binary_round_aux prec emax false m e l) = true.
Proof.
  unfold binary_round_aux.
  destruct (shr_fexp prec emax m e l) as [mrs' e'].
  destruct (shr_fexp prec emax _ e' loc_Exact) as [mrs'' e''].
  destruct (shr_m mrs''); [right; reflexivity| |left; reflexivity].
  destruct (e'' <=? emax - prec); right; reflexivity.
Qed.

Lemma SFsqrt_sign (x : spec_float) :
  SF64sqrt x = S754_nan \/ SFleb (S754_zero false) (SF64sqrt x) = true.
Proof.
  unfold SF64sqrt.
  destruct x as [s|s| |s m e]; try destruct s; cbn [SFsqrt]; auto.
  destruct (SFsqrt_core_binary prec emax (Zpos m) e) as [[mz ez] lz].
  apply binary_round_aux_sign.
Qed.

Lemma SFadd_nan_free (x a b : spec_float) :
  SFadd prec emax x b <> S754_nan ->
  SFleb a b = true -> SFleb (S754_zero false) a = true ->
  SFadd prec emax x a <> S754_nan.
Proof.
  intros Nb Hab Pa.
  destruct a as [sa|sa| |sa ma ea]; try destruct sa; try discriminate;
    destruct b as [sb|sb| |sb mb eb]; try destruct sb; try discriminate;
    destruct x as [sx|sx| |sx mx ex]; try destruct sx;
    try exact Nb; try discriminate;
    cbn [SFadd]; try discriminate; apply binary_normalize_not_nan.
Qed.

Lemma SFsub_nan_free (x a b : spec_float) :
  SFadd prec emax x (SFopp b) <> S754_nan ->
  SFleb a b = true -> SFleb (S754_zero false) a = true ->
  SFadd prec emax x (SFopp a) <> S754_nan.
Proof.
  intros Nb Hab Pa.
  destruct a as [sa|sa| |sa ma ea]; try destruct sa; try discriminate;
    destruct b as [sb|sb| |sb mb eb]; try destruct sb; try discriminate;
    destruct x as [sx|sx| |sx mx ex]; try destruct sx;
    try exact Nb; try discriminate;
    cbn [SFadd SFopp negb]; try discriminate; apply binary_normalize_not_nan.
Qed.

(** ** Primitive floats *)

Lemma SFltb_nan_l (y : spec_float) : SFltb S754_nan y = false.
Proof. reflexivity. Qed.

Lemma SFltb_nan_r (x : spec_float) : SFltb x S754_nan = false.
Proof. destruct x; reflexivity. Qed.

Lemma SFadd_nan_r (x : spec_float) : SFadd prec emax x S754_nan = S754_nan.
Proof. destruct x; reflexivity. Qed.

Lemma SFmul_nan_r (x : spec_float) : SFmul prec emax x S754_nan = S754_nan.
Proof. destruct x; reflexivity. Qed.

Lemma Prim2SF_zero : Prim2SF 0%float = S754_zero false.
Proof. reflexivity. Qed.

(** The statistical bounds move outwards when the sensitivity grows:
    whatever is above mean + s2 * std is above mean + s1 * std, and whatever
    is below mean - s2 * std is below mean - s1 * std, for 0 < s1 <= s2 and a
    standard deviation that is a square root. *)
Lemma upper_stat_antitone (mean v s1 s2 b : float) :
  (0 <? s1)%float = true -> (s1 <=? s2)%float = true ->
  (b >? mean + s2 * PrimFloat.sqrt v)%float = true ->
  (b >? mean + s1 * PrimFloat.sqrt v)%float = true.
Proof.
  rewrite !ltb_spec, leb_spec, !add_spec, Prim2SF_zero.
  intros P1 H12 H.
  pose proof (Prim2SF_valid mean) as VM.
  pose proof (Prim2SF_valid s1) as V1. pose proof (Prim2SF_valid s2) as V2.
  pose proof (Prim2SF_valid (PrimFloat.sqrt v)) as VD.
  pose proof (Prim2SF_valid (s1 * PrimFloat.sqrt v)) as VT1.
  pose proof (Prim2SF_valid (s2 * PrimFloat.sqrt v)) as VT2.
  rewrite !mul_spec in *.
  pose proof (SFsqrt_sign (Prim2SF v)) as HD. rewrite <- sqrt_spec in HD.
  set (M := Prim2SF mean) in *. set (S1 := Prim2SF s1) in *.
  set (S2 := Prim2SF s2) in *. set (D := Prim2SF (PrimFloat.sqrt v)) in *.
  set (B := Prim2SF b) in *.
  unfold SF64add, SF64mul in *.
  assert (SFadd prec emax M (SFmul prec emax S2 D) <> S754_nan) as NU2
    by (intros E; rewrite E in H; discriminate).
  assert (SFmul prec emax S2 D <> S754_nan) as NT2
    by (intros E; rewrite E, SFadd_nan_r in NU2; congruence).
  assert (SFleb (S754_zero false) D = true) as PD.
  { destruct HD as [E|HD]; [|exact HD].
    rewrite E, SFmul_nan_r in NT2. congruence. }
  pose proof (SFmul_mono S1 S2 D V1 V2 VD P1 H12 PD NT2) as HT.
  assert (SFmul prec emax S1 D <> S754_nan) as NT1
    by (intros E; rewrite E in HT; discriminate).
  pose proof (SFmul_nonneg S1 D V1 VD P1 PD NT1) as PT1.
  pose proof (SFadd_nan_free M _ _ NU2 HT PT1) as NU1.
  eapply SFleb_ltb_trans; [|exact H].
  now apply SFadd_mono.
Qed.

Lemma lower_stat_antitone (mean v s1 s2 b : float) :
  (0 <? s1)%float = true -> (s1 <=? s2)%float = true ->
  (b <? mean - s2 * PrimFloat.sqrt v)%float = true ->
  (b <? mean - s1 * PrimFloat.sqrt v)%float = true.
Proof.
  rewrite !ltb_spec, leb_spec, !sub_spec, Prim2SF_zero.
  intros P1 H12 H.
  pose proof (Prim2SF_valid mean) as VM.
  pose proof (Prim2SF_valid s1) as V1. pose proof (Prim2SF_valid s2) as V2.
  pose proof (Prim2SF_valid (PrimFloat.sqrt v)) as VD.
  pose proof (Prim2SF_valid (s1 * PrimFloat.sqrt v)) as VT1.
  pose proof (Prim2SF_valid (s2 * PrimFloat.sqrt v)) as VT2.
  rewrite !mul_spec in *.
  pose proof (SFsqrt_sign (Prim2SF v)) as HD. rewrite <- sqrt_spec in HD.
  set (M := Prim2SF mean) in *. set (S1 := Prim2SF s1) in *.
  set (S2 := Prim2SF s2) in *. set (D := Prim2SF (PrimFloat.sqrt v)) in *.
  set (B := Prim2SF b) in *.
  unfold SF64sub, SF64mul in *. rewrite !SFsub_add_opp in *.
  assert (SFadd prec emax M (SFopp (SFmul prec emax S2 D)) <> S754_nan) as NL2
    by (intros E; rewrite E, SFltb_nan_r in H; discriminate).
  assert (SFmul prec emax S2 D <> S754_nan) as NT2.
  { intros E. rewrite E in NL2. cbn [SFopp] in NL2.
    rewrite SFadd_nan_r in NL2. congruence. }
  assert (SFleb (S754_zero false) D = true) as PD.
  { destruct HD as [E|HD]; [|exact HD].
    rewrite E, SFmul_nan_r in NT2. congruence. }
  pose proof (SFmul_mono S1 S2 D V1 V2 VD P1 H12 PD NT2) as HT.
  assert (SFmul prec emax S1 D <> S754_nan) as NT1
    by (intros E; rewrite E in HT; discriminate).
  pose proof (SFmul_nonneg S1 D V1 VD P1 PD NT1) as PT1.
  pose proof (SFsub_nan_free M _ _ NL2 HT PT1) as NL1.
  eapply SFltb_leb_trans; [exact H|].
  apply SFadd_mono; try assumption; try (now rewrite valid_opp).
  now rewrite SFleb_opp.
Qed.

(** ** Integers and the ratio 0.2 *)

Lemma SFltb_fin (N1 N2 e1 e2 : Z) :
  0 < N1 -> 0 < N2 -> e1 < e2 \/ (e1 = e2 /\ N1 < N2) ->
  SFltb (S754_finite false (Z.to_pos N1) e1) (S754_finite false (Z.to_pos N2) e2)
  = true.
Proof.
  intros H1 H2 H. unfold SFltb. cbn [SFcompare].
  cmp_cases; try reflexivity; lia.
Qed.

Lemma dig_le (m d : Z) : 0 < m -> m < 2 ^ d -> dig m <= d.
Proof.
  intros Hm H. unfold dig. apply Z.log2_lt_pow2 in H; lia.
Qed.

Lemma dig_ge (m d : Z) : 1 <= d -> 2 ^ (d - 1) <= m -> d <= dig m.
Proof.
  intros Hd H. unfold dig. apply Z.log2_le_pow2 in H; [lia|].
  pose proof (pow2_pos (d - 1) ltac:(lia)). lia.
Qed.

(** a value with at most 53 digits in the normal range is kept as it is *)
Lemma round_model_exact (m e : Z) :
  0 < m -> dig m <= 53 -> -1074 <= dig m + e - 53 <= 971 ->
  round_model false m e
  = S754_finite false (Z.to_pos (m * 2 ^ (53 - dig m))) (dig m + e - 53).
Proof.
  intros Hm Hd He. unfold round_model. rewrite fexp_eq.
  rewrite Z.max_l by lia.
  unfold RN. assert ((dig m + e - 53 - e <=? 0) = true) as ->
    by (apply Z.leb_le; lia).
  replace (- (dig m + e - 53 - e)) with (53 - dig m) by lia.
  pose proof (dig_bounds m Hm) as [Hlo Hhi].
  pose proof (dig_pos m Hm).
  pose proof (pow2_pos (53 - dig m) ltac:(lia)) as HP.
  assert (m * 2 ^ (53 - dig m) < 2 ^ 53) as Hlt.
  { replace 53 with (dig m + (53 - dig m)) at 2 by lia.
    rewrite Z.pow_add_r by lia. nia. }
  destruct (Z.eqb_spec (m * 2 ^ (53 - dig m)) 0); [nia|].
  destruct (Z.eqb_spec (m * 2 ^ (53 - dig m)) (2 ^ 53)); [lia|].
  destruct (Z.leb_spec (dig m + e - 53) 971); [reflexivity|lia].
Qed.

Lemma of_int_spec (n : nat) :
  Z.of_nat n < 2 ^ 63 ->
  Prim2SF (of_int n) = binary_normalize prec emax (Z.of_nat n) 0 false.
Proof.
  intros H. unfold of_int. rewrite of_uint63_spec, Uint63.of_Z_spec.
  rewrite Z.mod_small; [reflexivity|]. split; [lia|exact H].
Qed.

Lemma Prim2SF_ratio :
  Prim2SF 0.2%float = S754_finite false 7205759403792794 (-55).
Proof. reflexivity. Qed.

Lemma above_ratio_exact (c r : nat) :
  Z.of_nat r < 2 ^ 49 -> Z.of_nat c < 2 ^ 49 ->
  (of_int c >? of_int r * 0.2)%float = true <-> (r < 5 * c)%nat.
Proof.
  intros Hr Hc.
  assert (2 ^ 49 < 2 ^ 63) as H63 by reflexivity.
  rewrite ltb_spec, mul_spec.
  pose proof (Prim2SF_valid (of_int r)) as VR.
  pose proof (Prim2SF_valid 0.2%float) as V02.
  rewrite Prim2SF_ratio in *.
  rewrite !of_int_spec in * by lia.
  assert ((r < 5 * c)%nat <-> Z.of_nat r < 5 * Z.of_nat c) as -> by lia.
  remember (Z.of_nat r) as R eqn:ER. remember (Z.of_nat c) as C eqn:EC.
  assert (0 <= R) as HR0 by lia. assert (0 <= C) as HC0 by lia.
  clear ER EC r c.
  (* the exact shape of a converted positive integer *)
  assert (forall n, 0 < n -> n < 2 ^ 49 ->
            binary_normalize prec emax n 0 false
            = S754_finite false (Z.to_pos (n * 2 ^ (53 - dig n))) (dig n - 53)
            /\ 1 <= dig n <= 49) as Hconv.
  { intros n Hn Hn49.
    pose proof (dig_pos n Hn). pose proof (dig_le n 49 Hn Hn49).
    rewrite binary_normalize_model. destruct n as [|p|p]; try lia.
    rewrite round_model_exact by lia.
    replace (dig (Zpos p) + 0 - 53) with (dig (Zpos p) - 53) by lia. auto. }
  unfold SF64mul.
  destruct (Z.eq_dec R 0) as [->|HRn].
  - (* no rows: the product is +0 *)
    cbn [binary_normalize SFmul xorb].
    destruct (Z.eq_dec C 0) as [->|HCn].
    + cbn [binary_normalize]. split; [discriminate|lia].
    + destruct (Hconv C ltac:(lia) Hc) as [-> _]. split; [lia|reflexivity].
  - destruct (Hconv R ltac:(lia) Hr) as [ERs HdR]. rewrite ERs in *.
    rewrite SFmul_fin_fin by assumption. cbn [xorb].
    pose proof (pow2_pos (53 - dig R) ltac:(lia)) as HP.
    rewrite Z2Pos.id by (apply Z.mul_pos_pos; lia).
    set (P := 2 ^ (53 - dig R)) in *.
    assert (0 < R * P) as HRP by (apply Z.mul_pos_pos; lia).
    set (E0 := dig R - 53 + -55).
    destruct (Z.lt_ge_cases R (5 * C)) as [L|L].
    + (* 5 c > r: the product stays a sixteenth below c *)
      split; [intros _; exact L|intros _].
      destruct (Hconv C ltac:(lia) Hc) as [-> HdC].
      apply SFleb_ltb_trans with (y := round_model false (16 * C - 1) (-4)).
      * apply (round_model_mono _ _ _ _ E0); [lia|lia|unfold E0; lia|].
        rewrite Z.sub_diag.
        replace (-4 - E0) with (51 + (53 - dig R)) by (unfold E0; lia).
        rewrite Z.pow_add_r by lia. fold P.
        change (2 ^ 0) with 1. change (2 ^ 51) with 2251799813685248.
        change (2 ^ 49) with 562949953421312 in *.
        assert (R * 7205759403792794 <= (16 * C - 1) * 2251799813685248) as Hlin
          by lia.
        apply (Z.mul_le_mono_nonneg_r _ _ P) in Hlin; [|lia].
        match goal with
        | |- ?l <= ?r =>
            replace l with (R * 7205759403792794 * P) by ring;
            replace r with ((16 * C - 1) * 2251799813685248 * P) by ring
        end.
        exact Hlin.
      * pose proof (dig_bounds C ltac:(lia)) as [HCl HCh].
        assert (dig C + 3 <= dig (16 * C - 1)) as Hd1.
        { apply dig_ge; [lia|].
          replace (dig C + 3 - 1) with (dig C - 1 + 3) by lia.
          rewrite Z.pow_add_r by lia. change (2 ^ 3) with 8. lia. }
        assert (dig (16 * C - 1) <= dig C + 4) as Hd2.
        { apply dig_le; [lia|]. rewrite Z.pow_add_r by lia.
          change (2 ^ 4) with 16. lia. }
        rewrite round_model_exact by lia.
        pose proof (pow2_pos (53 - dig (16 * C - 1)) ltac:(lia)).
        pose proof (pow2_pos (53 - dig C) ltac:(lia)).
        apply SFltb_fin; [apply Z.mul_pos_pos; lia|apply Z.mul_pos_pos; lia|].
        destruct (Z.eq_dec (dig (16 * C - 1)) (dig C + 4)) as [E|E].
        -- right. split; [lia|]. rewrite E.
           replace (53 - dig C) with (53 - (dig C + 4) + 4) by lia.
           rewrite (Z.pow_add_r 2 (53 - (dig C + 4)) 4) by lia.
           change (2 ^ 4) with 16.
           pose proof (pow2_pos (53 - (dig C + 4)) ltac:(lia)) as HQ.
           set (Q := 2 ^ (53 - (dig C + 4))) in *.
           replace (C * (Q * 16)) with (16 * C * Q) by ring.
           apply Z.mul_lt_mono_pos_r; lia.
        -- left. lia.
    + (* 5 c <= r: c is at most the product *)
      split; [|lia]. intros H. exfalso.
      rewrite SFleb_not_ltb in H; [discriminate|].
      destruct (Z.eq_dec C 0) as [->|HCn].
      * cbn [binary_normalize]. apply round_model_nonneg.
      * rewrite binary_normalize_model. destruct C as [|pc|pc]; try lia.
        apply (round_model_mono _ _ _ _ E0); [lia|unfold E0; lia|lia|].
        rewrite Z.sub_diag.
        replace (0 - E0) with (55 + (53 - dig R)) by (unfold E0; lia).
        rewrite Z.pow_add_r by lia. fold P.
        change (2 ^ 0) with 1. change (2 ^ 55) with 36028797018963968.
        assert (Zpos pc * 36028797018963968 <= R * 7205759403792794) as Hlin
          by lia.
        apply (Z.mul_le_mono_nonneg_r _ _ P) in Hlin; [|lia].
        match goal with
        | |- ?l <= ?r =>
            replace l with (Zpos pc * 36028797018963968 * P) by ring;
            replace r with (R * 7205759403792794 * P) by ring
        end.
        exact Hlin.
Qed.

End Binary64Facts.

(** * The statistics of the detector *)

(** ** Sums of integer data are exact *)

Section Exactness.
Local Open Scope Z_scope.

Lemma of_int_zero : Prim2SF (of_int 0) = S754_zero false.
Proof. reflexivity. Qed.

Lemma of_int_finite (n : nat) :
  0 < Z.of_nat n < 2 ^ 53 ->
  Prim2SF (of_int n)
  = S754_finite false (Z.to_pos (Z.of_nat n * 2 ^ (53 - dig (Z.of_nat n))))
      (dig (Z.of_nat n) - 53).
Proof.
  intros [Hpos Hlt].
  rewrite of_int_spec by (change (2 ^ 63) with 9223372036854775808;
                          change (2 ^ 53) with 9007199254740992 in Hlt; lia).
  rewrite binary_normalize_model.
  destruct (Z.of_nat n) as [|p|p] eqn:E; try lia.
  pose proof (dig_pos (Zpos p) ltac:(lia)).
  pose proof (dig_le (Zpos p) 53 ltac:(lia) Hlt).
  rewrite round_model_exact by lia. f_equal. lia.
Qed.

Lemma of_int_ulps (n : nat) :
  Z.of_nat n < 2 ^ 53 -> ulps (Prim2SF (of_int n)) = Z.of_nat n * 2 ^ 1074.
Proof.
  intros Hlt. destruct n as [|n]; [reflexivity|].
  rewrite of_int_finite by lia. cbn [ulps].
  set (z := Z.of_nat (S n)) in *.
  assert (0 < z) as Hz by (unfold z; lia).
  pose proof (dig_pos z Hz). pose proof (dig_le z 53 Hz Hlt).
  pose proof (pow2_pos (53 - dig z) ltac:(lia)).
  rewrite Z2Pos.id by nia.
  rewrite Z.mul_1_l, <- Z.mul_assoc, <- Z.pow_add_r by lia.
  do 2 f_equal. lia.
Qed.

Lemma of_int_add (a b : nat) :
  Z.of_nat (a + b) < 2 ^ 53 -> (of_int a + of_int b)%float = of_int (a + b).
Proof.
  intros Hlt. apply Prim2SF_inj. rewrite add_spec.
  destruct a as [|a].
  { rewrite of_int_zero. cbn [Nat.add].
    destruct b as [|b]; [reflexivity|].
    rewrite of_int_finite by lia. reflexivity. }
  destruct b as [|b].
  { rewrite of_int_zero, Nat.add_0_r.
    rewrite of_int_finite by lia. reflexivity. }
  pose proof (of_int_ulps (S a) ltac:(lia)) as Ua.
  pose proof (of_int_ulps (S b) ltac:(lia)) as Ub.
  rewrite (of_int_finite (S a)) in * by lia.
  rewrite (of_int_finite (S b)) in * by lia.
  pose proof (dig_pos (Z.of_nat (S a)) ltac:(lia)).
  pose proof (dig_pos (Z.of_nat (S b)) ltac:(lia)).
  rewrite SFadd_fin_fin by lia.
  rewrite Ua, Ub, <- Z.mul_add_distr_r.
  change (-1074) with (0 - 1074).
  rewrite binary_normalize_scale by lia.
  rewrite of_int_spec by (change (2 ^ 63) with 9223372036854775808;
                          change (2 ^ 53) with 9007199254740992 in Hlt; lia).
  f_equal. lia.
Qed.

End Exactness.

(** ** The pairwise sum *)

Lemma list_sum_cons (n : nat) (l : list nat) :
  list_sum (n :: l) = (n + list_sum l)%nat.
Proof. reflexivity. Qed.

Lemma accumulate_exact (ns : list nat) : forall z0 : nat,
  (Z.of_nat (z0 + list_sum ns) < 2 ^ 53)%Z ->
  np.accumulate (of_int z0) (map of_int ns) = of_int (z0 + list_sum ns).
Proof.
  induction ns as [|n ns IH]; intros z0 H; cbn [map].
  - unfold np.accumulate. cbn [fold_left]. f_equal. cbn. lia.
  - rewrite list_sum_cons in *. unfold np.accumulate in *. cbn [fold_left].
    rewrite of_int_add by lia. rewrite IH by lia. f_equal. lia.
Qed.

Lemma unrolled_exact (k : nat) : forall (ns : list nat) (l0 l1 l2 l3 l4 l5 l6 l7 : nat),
  (length ns <= k)%nat ->
  (Z.of_nat (l0 + l1 + l2 + l3 + l4 + l5 + l6 + l7 + list_sum ns) < 2 ^ 53)%Z ->
  exists (m0 m1 m2 m3 m4 m5 m6 m7 : nat) (tail : list nat),
    np.unrolled
      (np.mkLanes (of_int l0) (of_int l1) (of_int l2) (of_int l3)
                  (of_int l4) (of_int l5) (of_int l6) (of_int l7))
      (map of_int ns)
    = (np.mkLanes (of_int m0) (of_int m1) (of_int m2) (of_int m3)
                  (of_int m4) (of_int m5) (of_int m6) (of_int m7),
       map of_int tail)
    /\ (m0 + m1 + m2 + m3 + m4 + m5 + m6 + m7 + list_sum tail
        = l0 + l1 + l2 + l3 + l4 + l5 + l6 + l7 + list_sum ns)%nat.
Proof.
  induction k as [|k IH]; intros ns l0 l1 l2 l3 l4 l5 l6 l7 Hk H.
  - destruct ns; [|cbn in Hk; lia].
    exists l0, l1, l2, l3, l4, l5, l6, l7, []. split; reflexivity.
  - destruct ns as [|a0 [|a1 [|a2 [|a3 [|a4 [|a5 [|a6 [|a7 rest]]]]]]]];
      [ match goal with |- context [np.unrolled _ (map of_int ?t)] =>
          exists l0, l1, l2, l3, l4, l5, l6, l7, t; split; reflexivity end .. | ].
    rewrite !list_sum_cons in H. cbn [map np.unrolled np.r0 np.r1 np.r2 np.r3 np.r4 np.r5 np.r6 np.r7].
    rewrite !of_int_add by lia.
    destruct (IH rest (l0 + a0) (l1 + a1) (l2 + a2) (l3 + a3) (l4 + a4)
                (l5 + a5) (l6 + a6) (l7 + a7))%nat
      as (m0 & m1 & m2 & m3 & m4 & m5 & m6 & m7 & tail & E & Hs).
    { cbn [length] in Hk. lia. }
    { lia. }
    exists m0, m1, m2, m3, m4, m5, m6, m7, tail. split; [exact E|].
    rewrite Hs, !list_sum_cons. lia.
Qed.

Lemma block_sum_exact (ns : list nat) :
  (Z.of_nat (list_sum ns) < 2 ^ 53)%Z ->
  np.block_sum (map of_int ns) = of_int (list_sum ns).
Proof.
  intros H.
  destruct ns as [|a0 [|a1 [|a2 [|a3 [|a4 [|a5 [|a6 [|a7 rest]]]]]]]];
    [ match goal with
      | |- np.block_sum (map of_int ?l) = _ =>
        change (np.accumulate (of_int 0) (map of_int l)
                = of_int (0 + list_sum l));
        apply accumulate_exact; exact H
      end .. | ].
  cbn [map np.block_sum]. rewrite !list_sum_cons in H.
  destruct (unrolled_exact (length rest) rest a0 a1 a2 a3 a4 a5 a6 a7
              (le_n _) ltac:(lia))
    as (m0 & m1 & m2 & m3 & m4 & m5 & m6 & m7 & tail & E & Hs).
  rewrite E. cbn [np.r0 np.r1 np.r2 np.r3 np.r4 np.r5 np.r6 np.r7].
  rewrite !list_sum_cons.
  rewrite !of_int_add by lia.
  rewrite accumulate_exact by lia. f_equal. lia.
Qed.

Lemma list_sum_firstn_skipn (k : nat) (ns : list nat) :
  (list_sum (firstn k ns) + list_sum (skipn k ns))%nat = list_sum ns.
Proof. now rewrite <- list_sum_app, firstn_skipn. Qed.

Lemma pairwise_sum_exact (fuel : nat) : forall ns : list nat,
  (Z.of_nat (list_sum ns) < 2 ^ 53)%Z ->
  np.pairwise_sum fuel (map of_int ns) = of_int (list_sum ns).
Proof.
  induction fuel as [|fuel IH]; intros ns H; cbn [np.pairwise_sum].
  - now apply block_sum_exact.
  - destruct (_ <=? 128)%nat; [now apply block_sum_exact|].
    rewrite length_map.
    pose proof (list_sum_firstn_skipn
                  (length ns / 2 - (length ns / 2) mod 8) ns) as Hs.
    rewrite firstn_map, skipn_map, !IH by lia.
    rewrite of_int_add by lia. now rewrite Hs.
Qed.

Lemma sum_exact (ns : list nat) :
  (Z.of_nat (list_sum ns) < 2 ^ 53)%Z ->
  np.sum (map of_int ns) = of_int (list_sum ns).
Proof.
  intros H. unfold np.sum. rewrite pairwise_sum_exact by exact H.
  change 0%float with (of_int 0). now rewrite of_int_add.
Qed.

(** the counter of [pairwise_sum] never runs out *)
Lemma pairwise_sum_fuel (f1 : nat) : forall (f2 : nat) (a : list float),
  (length a <= f1)%nat -> (length a <= f2)%nat ->
  np.pairwise_sum f1 a = np.pairwise_sum f2 a.
Proof.
  induction f1 as [|f1 IH]; intros f2 a H1 H2.
  - destruct f2; cbn [np.pairwise_sum]; [reflexivity|].
    destruct (Nat.leb_spec (length a) 128); [reflexivity|lia].
  - cbn [np.pairwise_sum].
    destruct (Nat.leb_spec (length a) 128) as [L|L].
    + destruct f2; cbn [np.pairwise_sum]; [reflexivity|].
      destruct (Nat.leb_spec (length a) 128); [reflexivity|lia].
    + destruct f2 as [|f2]; [lia|]. cbn [np.pairwise_sum].
      destruct (Nat.leb_spec (length a) 128); [lia|].
      set (n2 := (length a / 2 - (length a / 2) mod 8)%nat).
      assert (57 <= n2 < length a)%nat as Hn2.
      { unfold n2.
        pose proof (Nat.mod_upper_bound (length a / 2) 8 ltac:(lia)).
        pose proof (Nat.div_lt (length a) 2 ltac:(lia) ltac:(lia)).
        pose proof (Nat.Div0.div_le_mono 129 (length a) 2 ltac:(lia)) as Hd.
        change (129 / 2)%nat with 64%nat in Hd. lia. }
      f_equal; apply IH; rewrite ?length_firstn, ?length_skipn; lia.
Qed.

(** ** Mean and standard deviation *)

Lemma SFeqb_refl (x : spec_float) : x <> S754_nan -> SFeqb x x = true.
Proof.
  intros H. destruct x as [[]|[]| |s m e]; try reflexivity; [contradiction|].
  unfold SFeqb. cbn [SFcompare]. rewrite Z.compare_refl.
  change (PosDef.Pos.compare_cont Eq m m) with (Pos.compare m m).
  rewrite Pos.compare_refl. now destruct s.
Qed.

Lemma of_int_not_nan (n : nat) : np.isnan (of_int n) = false.
Proof.
  unfold np.isnan, is_nan. rewrite FloatAxioms.eqb_spec, SFeqb_refl; [reflexivity|].
  unfold of_int. rewrite of_uint63_spec. apply binary_normalize_not_nan.
Qed.

(** On integer data with missing entries the mean is the quotient of the
    exact sum of the present values by their number. *)
Lemma nanmean_cells (cells : list (option nat)) :
  (Z.of_nat (list_sum (omap id cells)) < 2 ^ 53)%Z ->
  np.nanmean (map (from_option of_int nan) cells)
  = (of_int (list_sum (omap id cells)) / of_int (length (omap id cells)))%float.
Proof.
  intros H. unfold np.nanmean. f_equal.
  - assert (np.replace_nan (map (from_option of_int nan) cells)
            = map of_int (map (from_option id 0%nat) cells)) as ->.
    { unfold np.replace_nan. rewrite !map_map. apply map_ext.
      intros [n|]; cbn [from_option]; [now rewrite of_int_not_nan|reflexivity]. }
    assert (list_sum (map (from_option id 0%nat) cells)
            = list_sum (omap id cells)) as E.
    { clear H. induction cells as [|[n|] cells IH]; cbn [map omap list_omap from_option id];
        rewrite ?list_sum_cons; cbn [mbind option_bind]; rewrite ?list_sum_cons; lia. }
    rewrite sum_exact by (rewrite E; exact H). now rewrite E.
  - f_equal. unfold np.count. clear H.
    induction cells as [|[n|] cells IH]; cbn [map List.filter from_option];
      [reflexivity| |].
    + rewrite of_int_not_nan. cbn [negb length omap list_omap]. cbn.
      now rewrite <- IH.
    + change (np.isnan nan) with true. cbn [negb]. exact IH.
Qed.

Lemma nanmean_unfold (values : list float) :
  np.nanmean values
  = (np.sum (map (fun x => if np.isnan x then 0 else x) values)
     / of_int (length (List.filter (fun x => negb (np.isnan x)) values)))%float.
Proof. reflexivity. Qed.

Lemma nanstd_unfold (values : list float) :
  np.nanstd values
  = PrimFloat.sqrt
      (np.sum (map (fun x => if np.isnan x then 0
                             else (x - np.nanmean values) * (x - np.nanmean values))
                 values)
       / of_int (length (List.filter (fun x => negb (np.isnan x)) values)))%float.
Proof.
  unfold np.nanstd, np.nanvar. cbv zeta. rewrite map_map.
  do 3 f_equal. apply map_ext. intros x. now destruct (np.isnan x).
Qed.

(** numpy's sum of ten times 0.1 is 1: the first eight values start the
    eight accumulators, which are added in pairs, and the last two values are
    added one by one; adding the ten values from left to right gives
    0.99999999999999989. *)
Example sum_pairwise_order :
  np.sum [0.1; 0.1; 0.1; 0.1; 0.1; 0.1; 0.1; 0.1; 0.1; 0.1]%float = 1%float
  /\ fold_left PrimFloat.add
       [0.1; 0.1; 0.1; 0.1; 0.1; 0.1; 0.1; 0.1; 0.1; 0.1]%float 0%float
     = 0.99999999999999989%float.
Proof. split; reflexivity. Qed.

(** the statistics of the series [1, 10, 1, 10, 1]: mean 4.6, population
    standard deviation 4.409... *)
Example statistics_alternating :
  np.nanmean [1; 10; 1; 10; 1]%float = 4.6%float
  /\ np.nanstd [1; 10; 1; 10; 1]%float = 4.4090815370097207%float.
Proof. split; reflexivity. Qed.

(** C1. At an interior index whose value and both neighbours are present, a
    peak is reported exactly when the value is strictly above both neighbours
    and above the high threshold (when there is one) or above
    mean + sensitivity * std; a low is reported exactly when it is strictly
    below both neighbours and below the low threshold (when there is one) or
    below mean - sensitivity * std. The two abnormality tests are joined by
    a disjunction. The statistics are those of the non-missing values: with
    N their number, the mean is the sum of the values (0 where one is
    missing) divided by N, and std is the square root of the sum of the
    squared deviations from the mean (0 where a value is missing) divided by
    N, all in binary64 with numpy's sum. That sum is the exact sum wherever
    no addition rounds (integer data with a total below 2^53), and the mean
    of integer data with missing entries is the exact sum of the present
    values divided by their number. *)
Theorem detect_rule (values : list float) (low_thresh high_thresh : option float)
    (std_factor : float) (i : nat) (a b c : float) :
  (1 <= i <= length values - 2)%nat ->
  values !! (i - 1)%nat = Some a ->
  values !! i = Some b ->
  values !! (i + 1)%nat = Some c ->
  np.isnan a = false -> np.isnan b = false -> np.isnan c = false ->
  let N := of_int (length (List.filter (fun x => negb (np.isnan x)) values)) in
  let mean :=
    (np.sum (map (fun x => if np.isnan x then 0 else x) values) / N)%float in
  let std :=
    PrimFloat.sqrt
      (np.sum (map (fun x => if np.isnan x then 0
                             else (x - mean) * (x - mean)) values) / N)%float in
  let result := detect_peaks_lows values low_thresh high_thresh std_factor in
  (In i (fst result) <->
     (b >? a)%float = true /\ (b >? c)%float = true /\
     ((exists h, high_thresh = Some h /\ (b >? h)%float = true) \/
      (b >? mean + std_factor * std)%float = true))
  /\
  (In i (snd result) <->
     (b <? a)%float = true /\ (b <? c)%float = true /\
     ((exists l, low_thresh = Some l /\ (b <? l)%float = true) \/
      (b <? mean - std_factor * std)%float = true))
  /\
  (forall counts : list nat,
      (Z.of_nat (list_sum counts) < 2 ^ 53)%Z ->
      np.sum (map of_int counts) = of_int (list_sum counts))
  /\
  (forall cells : list (option nat),
      (Z.of_nat (list_sum (omap id cells)) < 2 ^ 53)%Z ->
      np.nanmean (map (from_option of_int nan) cells)
      = (of_int (list_sum (omap id cells))
         / of_int (length (omap id cells)))%float).
Proof.
  intros Hi Ha Hb Hc Na Nb Nc N mean std result.
  assert (Hguard : (length values <? 3)%nat || np.isnan_all values = false).
  { apply orb_false_iff. split.
    - apply Nat.ltb_ge. lia.
    - eapply isnan_all_false; eauto. }
  assert (np.nanmean values = mean) as Hmean by apply nanmean_unfold.
  assert (np.nanstd values = std) as Hstd
    by (rewrite nanstd_unfold, Hmean; reflexivity).
  unfold result. rewrite (detect_unfold _ _ _ _ Hguard). cbn [fst snd].
  rewrite !filter_In. unfold interior. rewrite in_seq.
  unfold reports_peak, reports_low, peak_cond, low_cond.
  rewrite (getitem_lookup _ _ _ Ha), (getitem_lookup _ _ _ Hb),
    (getitem_lookup _ _ _ Hc), Na, Nb, Nc. cbn [negb andb].
  rewrite !andb_true_iff, !orb_true_iff, above_true, below_true.
  rewrite Hmean, Hstd.
  split; [|split; [|split]].
  - split.
    + intros [_ [[H1 H2] H3]]. auto.
    + intros (H1 & H2 & H3). split; [lia|]. auto.
  - split.
    + intros [_ [[H1 H2] H3]]. auto.
    + intros (H1 & H2 & H3). split; [lia|]. auto.
  - apply sum_exact.
  - apply nanmean_cells.
Qed.

(** The rule at the centre of [1, 10, 1]: the 10 is a peak because of the
    high threshold 5 alone. *)
Lemma detect_rule_witness :
  In 1%nat (fst (detect_peaks_lows [1; 10; 1]%float None (Some 5%float) 3%float)).
Proof.
  refine (proj2 (proj1 (detect_rule [1; 10; 1]%float None (Some 5%float)
                          3%float 1 1%float 10%float 1%float
                          _ eq_refl eq_refl eq_refl eq_refl eq_refl eq_refl)) _).
  - simpl. lia.
  - split; [reflexivity|]. split; [reflexivity|].
    left. exists 5%float. split; reflexivity.
Defined.

(** * Sensitivity and the volatility ratio *)

(** C10. For sensitivities 0 < s1 <= s2, every peak reported with s2 is
    reported with s1, and every low reported with s2 is reported with s1:
    raising the sensitivity can only remove extrema. *)
Theorem detect_antitone (values : list float)
    (low_thresh high_thresh : option float) (s1 s2 : float) :
  (0 <? s1)%float = true -> (s1 <=? s2)%float = true ->
  (forall i, In i (fst (detect_peaks_lows values low_thresh high_thresh s2)) ->
             In i (fst (detect_peaks_lows values low_thresh high_thresh s1)))
  /\
  (forall i, In i (snd (detect_peaks_lows values low_thresh high_thresh s2)) ->
             In i (snd (detect_peaks_lows values low_thresh high_thresh s1))).
Proof.
  intros Hpos Hle.
  destruct ((length values <? 3)%nat || np.isnan_all values) eqn:G.
  - unfold detect_peaks_lows. rewrite G. split; intros i H; exact H.
  - rewrite !(detect_unfold _ _ _ _ G). cbn [fst snd].
    split; intros i H; apply filter_In in H as [Hi H]; apply filter_In;
      (split; [exact Hi|]).
    + unfold reports_peak, peak_cond in *.
      apply andb_true_iff in H as [Hnan H].
      apply andb_true_iff in H as [Hshape H].
      rewrite Hnan, Hshape. cbn [andb].
      apply orb_true_iff in H as [H|H]; apply orb_true_iff; [now left|right].
      unfold np.nanstd in *.
      exact (upper_stat_antitone _ _ _ _ _ Hpos Hle H).
    + unfold reports_low, low_cond in *.
      apply andb_true_iff in H as [Hnan H].
      apply andb_true_iff in H as [Hshape H].
      rewrite Hnan, Hshape. cbn [andb].
      apply orb_true_iff in H as [H|H]; apply orb_true_iff; [now left|right].
      unfold np.nanstd in *.
      exact (lower_stat_antitone _ _ _ _ _ Hpos Hle H).
Qed.

Lemma detect_antitone_witness :
  (forall i,
      In i (fst (detect_peaks_lows [1; 10; 1; 10; 1]%float None None 1%float)) ->
      In i (fst (detect_peaks_lows [1; 10; 1; 10; 1]%float None None 0.5%float)))
  /\
  (forall i,
      In i (snd (detect_peaks_lows [1; 10; 1; 10; 1]%float None None 1%float)) ->
      In i (snd (detect_peaks_lows [1; 10; 1; 10; 1]%float None None 0.5%float))).
Proof.
  apply (detect_antitone [1; 10; 1; 10; 1]%float None None 0.5%float 1%float);
    reflexivity.
Defined.

(** The worked cases of the classifier: 2 extrema in 5 rows pass the
    threshold 1.0, 1 extremum in 10 rows does not pass 2.0, and four extrema
    get the remedy of code 2. *)
Example report_rows_example :
  report_rows [ mkSummary "doorfriction" 1 1 1 5;
                mkSummary "doorfriction" 2 1 0 10;
                mkSummary "lockHookTime" 1 3 1 12 ]
  = [ mkInsight "doorfriction" 1 "⚠️ High uncertainty → Technician check"
        (Some "This is the reason for the error"%string);
      mkInsight "lockHookTime" 1 "⚠️ High uncertainty → Technician check"
        (Some "Follow solution 2"%string) ].
Proof. vm_compute. reflexivity. Qed.

(** The aggregation on the example table, sorted by date: the row spelt
    [DoorFriction] is grouped with [doorfriction], floors come in ascending
    order, and the KPIs in the order of the selection. *)
Example kpi_summary_example :
  kpi_summary sort_by_date example_df 1%float example_selection
  = [ mkSummary "doorfriction" 1 0 0 1;
      mkSummary "doorfriction" 2 0 0 2;
      mkSummary "lockHookTime" 1 0 0 1 ].
Proof. vm_compute. reflexivity. Qed.

(** * Further properties of the detector *)

Lemma leb_not_ltb (x y : float) : (x <=? y)%float = true -> (y <? x)%float = false.
Proof. rewrite leb_spec, ltb_spec. apply SFleb_not_ltb. Qed.

Lemma leb_ltb_trans (x y z : float) :
  (x <=? y)%float = true -> (y <? z)%float = true -> (x <? z)%float = true.
Proof. rewrite leb_spec, !ltb_spec. apply SFleb_ltb_trans. Qed.

Lemma ltb_leb_trans (x y z : float) :
  (x <? y)%float = true -> (y <=? z)%float = true -> (x <? z)%float = true.
Proof. rewrite leb_spec, !ltb_spec. apply SFltb_leb_trans. Qed.

Lemma getitem_in_range (arr : list float) (i : nat) :
  (i < length arr)%nat -> arr !! i = Some (getitem arr i).
Proof.
  intros H. destruct (lookup_lt_is_Some_2 arr i H) as [x Hx].
  now rewrite (getitem_lookup _ _ _ Hx).
Qed.

(** what membership in the two results means, in terms of the loop *)
Lemma detect_peak_In (values : list float) (lo hi : option float) (s : float)
    (i : nat) :
  In i (fst (detect_peaks_lows values lo hi s)) ->
  (1 <= i)%nat /\ (i + 2 <= length values)%nat
  /\ reports_peak values hi
       (np.nanmean values + s * np.nanstd values)%float i = true.
Proof.
  destruct ((length values <? 3)%nat || np.isnan_all values) eqn:G.
  - unfold detect_peaks_lows. rewrite G. intros [].
  - rewrite (detect_unfold _ _ _ _ G). cbn [fst]. unfold interior.
    rewrite filter_In, in_seq. intros [H1 H2].
    apply orb_false_iff in G as [G _]. apply Nat.ltb_ge in G.
    repeat split; [lia|lia|exact H2].
Qed.

Lemma detect_low_In (values : list float) (lo hi : option float) (s : float)
    (i : nat) :
  In i (snd (detect_peaks_lows values lo hi s)) ->
  (1 <= i)%nat /\ (i + 2 <= length values)%nat
  /\ reports_low values lo
       (np.nanmean values - s * np.nanstd values)%float i = true.
Proof.
  destruct ((length values <? 3)%nat || np.isnan_all values) eqn:G.
  - unfold detect_peaks_lows. rewrite G. intros [].
  - rewrite (detect_unfold _ _ _ _ G). cbn [snd]. unfold interior.
    rewrite filter_In, in_seq. intros [H1 H2].
    apply orb_false_iff in G as [G _]. apply Nat.ltb_ge in G.
    repeat split; [lia|lia|exact H2].
Qed.

(** X1. A reported index always has a present value and two present
    neighbours, and the value is strictly above both neighbours (peak) or
    strictly below both (low): a missing entry is never flagged and never
    stands next to a flagged point. *)
Theorem detect_reported_present (values : list float)
    (low_thresh high_thresh : option float) (std_factor : float) :
  let result := detect_peaks_lows values low_thresh high_thresh std_factor in
  Forall (fun i => exists a b c,
            values !! (i - 1)%nat = Some a /\ values !! i = Some b
            /\ values !! (i + 1)%nat = Some c
            /\ np.isnan a = false /\ np.isnan b = false /\ np.isnan c = false
            /\ (b >? a)%float = true /\ (b >? c)%float = true) (fst result)
  /\
  Forall (fun i => exists a b c,
            values !! (i - 1)%nat = Some a /\ values !! i = Some b
            /\ values !! (i + 1)%nat = Some c
            /\ np.isnan a = false /\ np.isnan b = false /\ np.isnan c = false
            /\ (b <? a)%float = true /\ (b <? c)%float = true) (snd result).
Proof.
  intros result. unfold result. split; apply List.Forall_forall; intros i Hi.
  - apply detect_peak_In in Hi as (H1 & H2 & H).
    unfold reports_peak, peak_cond in H.
    apply andb_true_iff in H as [H Hc]. apply andb_true_iff in H as [Hb Hac].
    apply andb_true_iff in Hac as [Ha Hcn].
    apply andb_true_iff in Hc as [Hc _]. apply andb_true_iff in Hc as [Hba Hbc].
    apply negb_true_iff in Ha, Hb, Hcn.
    exists (getitem values (i - 1)), (getitem values i), (getitem values (i + 1)).
    rewrite <- !getitem_in_range by lia. auto 10.
  - apply detect_low_In in Hi as (H1 & H2 & H).
    unfold reports_low, low_cond in H.
    apply andb_true_iff in H as [H Hc]. apply andb_true_iff in H as [Hb Hac].
    apply andb_true_iff in Hac as [Ha Hcn].
    apply andb_true_iff in Hc as [Hc _]. apply andb_true_iff in Hc as [Hba Hbc].
    apply negb_true_iff in Ha, Hb, Hcn.
    exists (getitem values (i - 1)), (getitem values i), (getitem values (i + 1)).
    rewrite <- !getitem_in_range by lia. auto 10.
Qed.

Lemma reports_peak_not_next (arr : list float) (hi : option float) (u : float)
    (i : nat) :
  reports_peak arr hi u i = true -> reports_peak arr hi u (i + 1) = false.
Proof.
  unfold reports_peak, peak_cond. intros H.
  apply andb_true_iff in H as [_ H]. apply andb_true_iff in H as [H _].
  apply andb_true_iff in H as [_ H].
  replace (i + 1 - 1)%nat with i by lia.
  rewrite (ltb_asym _ _ H). cbn [andb]. now rewrite !andb_false_r.
Qed.

Lemma reports_low_not_next (arr : list float) (lo : option float) (l : float)
    (i : nat) :
  reports_low arr lo l i = true -> reports_low arr lo l (i + 1) = false.
Proof.
  unfold reports_low, low_cond. intros H.
  apply andb_true_iff in H as [_ H]. apply andb_true_iff in H as [H _].
  apply andb_true_iff in H as [_ H].
  replace (i + 1 - 1)%nat with i by lia.
  rewrite (ltb_asym _ _ H). cbn [andb]. now rewrite !andb_false_r.
Qed.

(** X2. Two consecutive indices are never both peaks, and never both lows. *)
Theorem detect_no_adjacent (values : list float)
    (low_thresh high_thresh : option float) (std_factor : float) :
  let result := detect_peaks_lows values low_thresh high_thresh std_factor in
  Forall (fun i => ~ In (i + 1)%nat (fst result)) (fst result)
  /\ Forall (fun i => ~ In (i + 1)%nat (snd result)) (snd result).
Proof.
  intros result. unfold result. split; apply List.Forall_forall; intros i Hi Hn.
  - apply detect_peak_In in Hi as (_ & _ & Hi).
    apply detect_peak_In in Hn as (_ & _ & Hn).
    apply reports_peak_not_next in Hi. congruence.
  - apply detect_low_In in Hi as (_ & _ & Hi).
    apply detect_low_In in Hn as (_ & _ & Hn).
    apply reports_low_not_next in Hi. congruence.
Qed.

Lemma filter_exclusive_length {A : Type} (f g : A -> bool) (l : list A) :
  (forall x, f x = true -> g x = false) ->
  (length (List.filter f l) + length (List.filter g l) <= length l)%nat.
Proof.
  intros Hex. induction l as [|x l IH]; cbn [List.filter]; [simpl; lia|].
  destruct (f x) eqn:Ef.
  - rewrite (Hex x Ef). simpl. lia.
  - destruct (g x); simpl; lia.
Qed.

Lemma filter_spaced_length (f : nat -> bool) (len : nat) : forall start,
  (forall i, f i = true -> f (i + 1)%nat = false) ->
  (2 * length (List.filter f (seq start len)) <= len + 1)%nat
  /\ (f start = false ->
      (2 * length (List.filter f (seq start len)) <= len)%nat).
Proof.
  induction len as [|len IH]; intros start Hsp; cbn [seq List.filter].
  - simpl. lia.
  - destruct (IH (S start) Hsp) as [IH1 IH2].
    destruct (f start) eqn:E.
    + specialize (Hsp start E). replace (start + 1)%nat with (S start) in Hsp by lia.
      specialize (IH2 Hsp). cbn [length]. split; [lia|discriminate].
    + split; [lia|intros _; lia].
Qed.

(** X3. The two results together hold at most n - 2 indices, and each of
    them at most every other point: 2 * peaks <= n - 1 and
    2 * lows <= n - 1. *)
Theorem detect_count_bound (values : list float)
    (low_thresh high_thresh : option float) (std_factor : float) :
  let n := length values in
  let result := detect_peaks_lows values low_thresh high_thresh std_factor in
  (length (fst result) + length (snd result) <= n - 2)%nat
  /\ (2 * length (fst result) <= n - 1)%nat
  /\ (2 * length (snd result) <= n - 1)%nat.
Proof.
  intros n result. unfold result.
  destruct ((length values <? 3)%nat || np.isnan_all values) eqn:G.
  - unfold detect_peaks_lows. rewrite G. simpl. lia.
  - rewrite (detect_unfold _ _ _ _ G). cbn [fst snd]. unfold interior.
    apply orb_false_iff in G as [G _]. apply Nat.ltb_ge in G. fold n in G |- *.
    split; [|split].
    + etransitivity; [apply filter_exclusive_length|rewrite length_seq; lia].
      intros i. apply reports_exclusive.
    + pose proof (filter_spaced_length
                    (reports_peak values high_thresh
                       (np.nanmean values + std_factor * np.nanstd values)%float)
                    (n - 2) 1
                    (reports_peak_not_next _ _ _)) as [H _]. lia.
    + pose proof (filter_spaced_length
                    (reports_low values low_thresh
                       (np.nanmean values - std_factor * np.nanstd values)%float)
                    (n - 2) 1
                    (reports_low_not_next _ _ _)) as [H _]. lia.
Qed.

Lemma filter_all_false {A : Type} (f : A -> bool) (l : list A) :
  (forall x, In x l -> f x = false) -> List.filter f l = [].
Proof.
  induction l as [|x l IH]; intros H; cbn [List.filter]; [reflexivity|].
  rewrite (H x) by now left. apply IH. intros y Hy. apply H. now right.
Qed.

(** X4. A series that never falls, or never rises, from one point to the
    next has no peak and no low, whatever the thresholds and the
    sensitivity; a constant series is the special case. *)
Theorem detect_monotone_series (values : list float)
    (low_thresh high_thresh : option float) (std_factor : float) :
  (forall i a b, values !! i = Some a -> values !! (S i) = Some b ->
                 (a <=? b)%float = true)
  \/ (forall i a b, values !! i = Some a -> values !! (S i) = Some b ->
                    (b <=? a)%float = true) ->
  detect_peaks_lows values low_thresh high_thresh std_factor = ([], []).
Proof.
  intros Hmono.
  destruct ((length values <? 3)%nat || np.isnan_all values) eqn:G.
  - unfold detect_peaks_lows. now rewrite G.
  - rewrite (detect_unfold _ _ _ _ G).
    apply orb_false_iff in G as [G _]. apply Nat.ltb_ge in G.
    assert (forall i, In i (interior (length values)) ->
              values !! (i - 1)%nat = Some (getitem values (i - 1))
              /\ values !! i = Some (getitem values i)
              /\ values !! (i + 1)%nat = Some (getitem values (i + 1))) as Hget.
    { intros i Hi. unfold interior in Hi. apply in_seq in Hi.
      rewrite <- !getitem_in_range by lia. auto. }
    f_equal; apply filter_all_false; intros i Hi;
      destruct (Hget i Hi) as (Ha & Hb & Hc);
      unfold interior in Hi; apply in_seq in Hi;
      unfold reports_peak, reports_low, peak_cond, low_cond.
    + destruct Hmono as [Hup|Hdown].
      * replace (i + 1)%nat with (S i) in * by lia.
        rewrite (leb_not_ltb _ _ (Hup i _ _ Hb Hc)).
        now rewrite !andb_false_r.
      * replace i with (S (i - 1)) in Hb at 1 by lia.
        rewrite (leb_not_ltb _ _ (Hdown (i - 1)%nat _ _ Ha Hb)).
        cbn [andb]. now rewrite !andb_false_r.
    + destruct Hmono as [Hup|Hdown].
      * replace i with (S (i - 1)) in Hb at 1 by lia.
        rewrite (leb_not_ltb _ _ (Hup (i - 1)%nat _ _ Ha Hb)).
        cbn [andb]. now rewrite !andb_false_r.
      * replace (i + 1)%nat with (S i) in * by lia.
        rewrite (leb_not_ltb _ _ (Hdown i _ _ Hb Hc)).
        now rewrite !andb_false_r.
Qed.

Lemma detect_monotone_series_witness :
  detect_peaks_lows [1; 2; 2; 50]%float (Some 5%float) (Some 8%float) 1%float
  = ([], []).
Proof.
  apply (detect_monotone_series [1; 2; 2; 50]%float (Some 5%float)
           (Some 8%float) 1%float).
  left. intros [|[|[|[|i]]]] a b Ha Hb; simpl in Ha, Hb;
    try discriminate; injection Ha as <-; injection Hb as <-; reflexivity.
Defined.

Lemma filter_In_mono {A : Type} (f g : A -> bool) (l : list A) (x : A) :
  (f x = true -> g x = true) -> In x (List.filter f l) -> In x (List.filter g l).
Proof. rewrite !filter_In. intros H [H1 H2]. auto. Qed.

Lemma detect_subset (values : list float) (lo1 hi1 lo2 hi2 : option float)
    (s : float) :
  (forall b, above hi1 b = true -> above hi2 b = true) ->
  (forall b, below lo1 b = true -> below lo2 b = true) ->
  (forall i, In i (fst (detect_peaks_lows values lo1 hi1 s)) ->
             In i (fst (detect_peaks_lows values lo2 hi2 s)))
  /\ (forall i, In i (snd (detect_peaks_lows values lo1 hi1 s)) ->
                In i (snd (detect_peaks_lows values lo2 hi2 s))).
Proof.
  intros Hhi Hlo.
  destruct ((length values <? 3)%nat || np.isnan_all values) eqn:G.
  - unfold detect_peaks_lows. rewrite G. split; intros i H; exact H.
  - rewrite !(detect_unfold _ _ _ _ G). cbn [fst snd].
    split; intros i; apply filter_In_mono;
      unfold reports_peak, reports_low, peak_cond, low_cond;
      rewrite !andb_true_iff, !orb_true_iff; intuition.
Qed.

(** X5. Narrowing the band of normal values can only add extrema: with
    l1 <= l2 and h1 <= h2, every peak found with the high threshold h2 is
    found with h1, and every low found with the low threshold l1 is found
    with l2. *)
Theorem detect_band (values : list float) (l1 l2 h1 h2 std_factor : float) :
  (l1 <=? l2)%float = true -> (h1 <=? h2)%float = true ->
  (forall i,
      In i (fst (detect_peaks_lows values (Some l1) (Some h2) std_factor)) ->
      In i (fst (detect_peaks_lows values (Some l2) (Some h1) std_factor)))
  /\ (forall i,
      In i (snd (detect_peaks_lows values (Some l1) (Some h2) std_factor)) ->
      In i (snd (detect_peaks_lows values (Some l2) (Some h1) std_factor))).
Proof.
  intros Hl Hh. apply detect_subset; intros b; cbn [above below].
  - intros H. exact (leb_ltb_trans _ _ _ Hh H).
  - intros H. exact (ltb_leb_trans _ _ _ H Hl).
Qed.

Lemma detect_band_witness :
  In 1%nat (fst (detect_peaks_lows [6; 9; 6; 6; 6]%float
                   (Some 5.5%float) (Some 7%float) 3%float)).
Proof.
  apply (proj1 (detect_band [6; 9; 6; 6; 6]%float 5%float 5.5%float 7%float
                  8%float 3%float ltac:(reflexivity) ltac:(reflexivity))).
  vm_compute. now left.
Defined.

(** X6. The thresholds only add to the statistical detection, and each
    acts on its own side: the extrema found with no thresholds are found
    with any thresholds, the peaks do not depend on the low threshold and
    the lows do not depend on the high threshold. *)
Theorem detect_thresholds_frame (values : list float)
    (low_thresh high_thresh low' high' : option float) (std_factor : float) :
  let result := detect_peaks_lows values low_thresh high_thresh std_factor in
  Forall (fun i => In i (fst result))
    (fst (detect_peaks_lows values None None std_factor))
  /\ Forall (fun i => In i (snd result))
       (snd (detect_peaks_lows values None None std_factor))
  /\ fst (detect_peaks_lows values low' high_thresh std_factor) = fst result
  /\ snd (detect_peaks_lows values low_thresh high' std_factor) = snd result.
Proof.
  intros result. unfold result.
  destruct (detect_subset values None None low_thresh high_thresh std_factor)
    as [Hp Hl]; try (intros b; discriminate).
  split; [now apply List.Forall_forall|].
  split; [now apply List.Forall_forall|].
  destruct ((length values <? 3)%nat || np.isnan_all values) eqn:G.
  - unfold detect_peaks_lows. rewrite G. split; reflexivity.
  - rewrite !(detect_unfold _ _ _ _ G). split; reflexivity.
Qed.

Lemma mapM_lookup_is_Some {A : Type} (l : list A) (idx : list nat) :
  (forall i, In i idx -> (i < length l)%nat) ->
  exists ys, values_at l idx = Some ys /\ length ys = length idx
             /\ forall k i, idx !! k = Some i -> ys !! k = l !! i.
Proof.
  unfold values_at. induction idx as [|i idx IH]; intros H.
  - exists []. repeat split. intros k i [=].
  - destruct IH as (ys & E & Hlen & Hk); [intros j Hj; apply H; now right|].
    destruct (lookup_lt_is_Some_2 l i (H i ltac:(now left))) as [y Hy].
    exists (y :: ys). cbn [mapM]. rewrite Hy, E. cbn.
    split; [reflexivity|]. split; [simpl; lia|].
    intros [|k] j Hj; cbn in Hj |- *; [injection Hj as <-; now symmetry|].
    now apply Hk.
Qed.

(** X7. The marker lookups of the chart never leave the array: indexing the
    values with the reported peaks, or with the reported lows, succeeds, gives
    one value per index (the value at that index), and none of them is
    missing. *)
Theorem detect_markers_in_range (values : list float)
    (low_thresh high_thresh : option float) (std_factor : float) :
  let result := detect_peaks_lows values low_thresh high_thresh std_factor in
  (exists ys, values_at values (fst result) = Some ys
              /\ length ys = length (fst result)
              /\ (forall k i, fst result !! k = Some i -> ys !! k = values !! i)
              /\ Forall (fun y => np.isnan y = false) ys)
  /\ (exists ys, values_at values (snd result) = Some ys
                 /\ length ys = length (snd result)
                 /\ (forall k i, snd result !! k = Some i -> ys !! k = values !! i)
                 /\ Forall (fun y => np.isnan y = false) ys).
Proof.
  intros result. unfold result. split.
  - destruct (mapM_lookup_is_Some values
                (fst (detect_peaks_lows values low_thresh high_thresh std_factor)))
      as (ys & E & Hlen & Hk).
    { intros i Hi. apply detect_peak_In in Hi. lia. }
    exists ys. repeat split; try assumption.
    apply List.Forall_forall. intros y Hy.
    apply list_elem_of_In, list_elem_of_lookup in Hy as [k Hy].
    assert (is_Some (fst (detect_peaks_lows values low_thresh high_thresh
                            std_factor) !! k)) as [i Hi].
    { apply lookup_lt_is_Some_2. rewrite <- Hlen. eapply lookup_lt_Some; eauto. }
    rewrite (Hk k i Hi) in Hy.
    assert (In i (fst (detect_peaks_lows values low_thresh high_thresh std_factor)))
      as Hin by (apply list_elem_of_In; eapply list_elem_of_lookup_2; eauto).
    apply detect_peak_In in Hin as (_ & _ & H).
    unfold reports_peak in H. apply andb_true_iff in H as [H _].
    apply andb_true_iff in H as [H _]. apply negb_true_iff in H.
    now rewrite (getitem_lookup _ _ _ Hy) in H.
  - destruct (mapM_lookup_is_Some values
                (snd (detect_peaks_lows values low_thresh high_thresh std_factor)))
      as (ys & E & Hlen & Hk).
    { intros i Hi. apply detect_low_In in Hi. lia. }
    exists ys. repeat split; try assumption.
    apply List.Forall_forall. intros y Hy.
    apply list_elem_of_In, list_elem_of_lookup in Hy as [k Hy].
    assert (is_Some (snd (detect_peaks_lows values low_thresh high_thresh
                            std_factor) !! k)) as [i Hi].
    { apply lookup_lt_is_Some_2. rewrite <- Hlen. eapply lookup_lt_Some; eauto. }
    rewrite (Hk k i Hi) in Hy.
    assert (In i (snd (detect_peaks_lows values low_thresh high_thresh std_factor)))
      as Hin by (apply list_elem_of_In; eapply list_elem_of_lookup_2; eauto).
    apply detect_low_In in Hin as (_ & _ & H).
    unfold reports_low in H. apply andb_true_iff in H as [H _].
    apply andb_true_iff in H as [H _]. apply negb_true_iff in H.
    now rewrite (getitem_lookup _ _ _ Hy) in H.
Qed.

(** * Further properties of the aggregation and the report *)

Lemma fold_left_append {A B : Type} (step : list B -> A -> list B) (l : list A) :
  (forall acc a, step acc a = acc ++ step [] a) ->
  forall acc, fold_left step l acc = acc ++ flat_map (step []) l.
Proof.
  intros Hstep. induction l as [|a l IH]; intros acc; cbn [fold_left flat_map].
  - now rewrite app_nil_r.
  - now rewrite IH, Hstep, <- app_assoc.
Qed.

Section AggregateAppend.

Variable sort_values : list Row -> list Row.
Variable df_filtered : list Row.
Variable std_factor : float.

Lemma floor_step_append (kpi_name : string) (df_kpi : list Row)
    (acc : list Summary) (fl : Z) :
  floor_step sort_values std_factor kpi_name df_kpi acc fl
  = acc ++ floor_step sort_values std_factor kpi_name df_kpi [] fl.
Proof.
  unfold floor_step.
  destruct (sort_values _) as [|r df_floor]; [now rewrite app_nil_r|].
  destruct (lookup_thresholds kpi_name) as [lo hi].
  now destruct (detect_peaks_lows _ lo hi std_factor).
Qed.

Lemma kpi_step_append (acc : list Summary) (kpi_name : string) :
  kpi_step sort_values df_filtered std_factor acc kpi_name
  = acc ++ kpi_step sort_values df_filtered std_factor [] kpi_name.
Proof.
  unfold kpi_step.
  destruct (List.filter _ df_filtered) as [|r df_kpi] eqn:E;
    [now rewrite app_nil_r|].
  rewrite (fold_left_append _ _ (floor_step_append kpi_name (r :: df_kpi)) acc).
  now rewrite (fold_left_append _ _ (floor_step_append kpi_name (r :: df_kpi)) []).
Qed.

Lemma kpi_summary_flat_map (selected_kpis : list string) :
  kpi_summary sort_values df_filtered std_factor selected_kpis
  = flat_map (kpi_step sort_values df_filtered std_factor []) selected_kpis.
Proof.
  unfold kpi_summary. now rewrite (fold_left_append _ _ kpi_step_append []).
Qed.

Lemma kpi_step_no_rows (kpi_name : string) :
  (forall r, In r df_filtered -> lower (ckpi r) <> lower kpi_name) ->
  kpi_step sort_values df_filtered std_factor [] kpi_name = [].
Proof.
  intros H. unfold kpi_step.
  rewrite filter_all_false; [reflexivity|].
  intros r Hr. apply String.eqb_neq. now apply H.
Qed.

(** the dictionary appended for one floor, whatever the sort returns *)
Lemma floor_step_In (kpi_name : string) (df_kpi : list Row) (fl : Z)
    (rec : Summary) :
  In rec (floor_step sort_values std_factor kpi_name df_kpi [] fl) ->
  exists df_floor lo hi,
    df_floor <> []
    /\ kpi rec = kpi_name /\ sfloor rec = fl
    /\ rows rec = length df_floor
    /\ peaks rec
       = length (fst (detect_peaks_lows (map ave df_floor) lo hi std_factor))
    /\ lows rec
       = length (snd (detect_peaks_lows (map ave df_floor) lo hi std_factor)).
Proof.
  unfold floor_step.
  destruct (sort_values _) as [|r df_floor] eqn:E; [intros []|].
  destruct (lookup_thresholds kpi_name) as [lo hi].
  destruct (detect_peaks_lows _ lo hi std_factor) as [pk lw] eqn:D.
  intros [<-|[]]. exists (r :: df_floor), lo, hi. rewrite D.
  repeat split. discriminate.
Qed.

Lemma kpi_summary_In (selected_kpis : list string) (rec : Summary) :
  In rec (kpi_summary sort_values df_filtered std_factor selected_kpis) ->
  exists df_floor lo hi,
    df_floor <> []
    /\ In (kpi rec) selected_kpis
    /\ rows rec = length df_floor
    /\ peaks rec
       = length (fst (detect_peaks_lows (map ave df_floor) lo hi std_factor))
    /\ lows rec
       = length (snd (detect_peaks_lows (map ave df_floor) lo hi std_factor)).
Proof.
  rewrite kpi_summary_flat_map, in_flat_map. intros (k & Hk & H).
  unfold kpi_step in H.
  destruct (List.filter _ df_filtered) as [|r df_kpi] eqn:E; [destruct H|].
  rewrite (fold_left_append _ _ (floor_step_append k (r :: df_kpi)) []) in H.
  cbn [app] in H. apply in_flat_map in H as (fl & _ & H).
  apply floor_step_In in H as (df_floor & lo & hi & H1 & H2 & H3 & H4 & H5 & H6).
  exists df_floor, lo, hi. rewrite H2. auto.
Qed.

End AggregateAppend.

(** X8. The summaries of a selection are the summaries of its parts, one
    after the other, and a selected KPI that no row carries adds nothing
    (the "No data for KPI" branch). *)
Theorem kpi_summary_app (sort_values : list Row -> list Row)
    (df_filtered : list Row) (std_factor : float) (sel1 sel2 : list string) :
  kpi_summary sort_values df_filtered std_factor (sel1 ++ sel2)
  = kpi_summary sort_values df_filtered std_factor sel1
    ++ kpi_summary sort_values df_filtered std_factor sel2
  /\ forall kpi_name,
       (forall r, In r df_filtered -> lower (ckpi r) <> lower kpi_name) ->
       kpi_summary sort_values df_filtered std_factor (sel1 ++ kpi_name :: sel2)
       = kpi_summary sort_values df_filtered std_factor (sel1 ++ sel2).
Proof.
  split.
  - now rewrite !kpi_summary_flat_map, flat_map_app.
  - intros k Hk. rewrite !kpi_summary_flat_map, !flat_map_app.
    cbn [flat_map]. now rewrite (kpi_step_no_rows _ _ _ _ Hk).
Qed.

Lemma detect_lengths (values : list float) (lo hi : option float) (s : float) :
  (length (fst (detect_peaks_lows values lo hi s))
   + length (snd (detect_peaks_lows values lo hi s)) <= length values - 2)%nat.
Proof.
  destruct ((length values <? 3)%nat || np.isnan_all values) eqn:G.
  - unfold detect_peaks_lows. rewrite G. simpl. lia.
  - rewrite (detect_unfold _ _ _ _ G). cbn [fst snd]. unfold interior.
    etransitivity; [apply filter_exclusive_length|rewrite length_seq; lia].
    intros i. apply reports_exclusive.
Qed.

Lemma summary_row_counts (sort_values : list Row -> list Row)
    (df_filtered : list Row) (std_factor : float) (selected_kpis : list string)
    (rec : Summary) :
  In rec (kpi_summary sort_values df_filtered std_factor selected_kpis) ->
  (1 <= rows rec)%nat /\ (peaks rec + lows rec <= rows rec - 2)%nat.
Proof.
  intros Hrec.
  apply kpi_summary_In in Hrec as (df_floor & lo & hi & Hne & _ & Hr & Hp & Hl).
  rewrite Hr, Hp, Hl. split.
  - destruct df_floor; [congruence|simpl; lia].
  - pose proof (detect_lengths (map ave df_floor) lo hi std_factor) as H.
    now rewrite length_map in H.
Qed.

(** X9. Whatever the sort returns, every summary counts at least one row
    and at most rows - 2 extrema, so a group of one or two rows has no peak
    and no low. *)
Theorem kpi_summary_counts (sort_values : list Row -> list Row)
    (df_filtered : list Row) (std_factor : float) (selected_kpis : list string) :
  Forall (fun rec => (1 <= rows rec)%nat
                     /\ (peaks rec + lows rec <= rows rec - 2)%nat
                     /\ ((rows rec < 3)%nat -> peaks rec = 0%nat /\ lows rec = 0%nat))
    (kpi_summary sort_values df_filtered std_factor selected_kpis).
Proof.
  apply List.Forall_forall. intros rec Hrec.
  destruct (summary_row_counts _ _ _ _ _ Hrec) as [H1 H2].
  split; [exact H1|]. split; [exact H2|]. intros H3. lia.
Qed.

Lemma SFmul_nonneg_not_below_zero (R : spec_float) (m : positive) (e : Z) :
  SFleb (S754_zero false) R = true ->
  SFltb (SFmul prec emax R (S754_finite false m e)) (S754_zero false) = false.
Proof.
  intros HR.
  destruct R as [s|s| |s mr er]; try destruct s; try discriminate;
    try reflexivity.
  cbn [SFmul xorb].
  destruct (binary_round_aux_sign (Zpos (mr * m)) (er + e) loc_Exact) as [E|E].
  - now rewrite E.
  - now apply SFleb_not_ltb.
Qed.

Lemma of_int_nonneg (n : nat) :
  SFleb (S754_zero false) (Prim2SF (of_int n)) = true.
Proof.
  unfold of_int. rewrite of_uint63_spec, binary_normalize_model.
  pose proof (Uint63.to_Z_bounded (Uint63.of_Z (Z.of_nat n))) as [H _].
  destruct (Uint63.to_Z (Uint63.of_Z (Z.of_nat n))) as [|p|p];
    [reflexivity|apply round_model_nonneg|lia].
Qed.

(** a summary that counts no extremum is never actionable, whatever its
    number of rows *)
Lemma no_extrema_not_actionable (rec : Summary) :
  (peaks rec + lows rec = 0)%nat -> actionable rec = false.
Proof.
  intros H. unfold actionable. rewrite H.
  rewrite ltb_spec, mul_spec, Prim2SF_ratio.
  rewrite (of_int_spec 0) by reflexivity.
  apply SFmul_nonneg_not_below_zero, of_int_nonneg.
Qed.

(** C8. The classifier marks a summary actionable exactly when
    peaks + lows > rows * 0.2: for counts below 2^49 the binary64 product
    and comparison of line 214 decide exactly rows < 5 * (peaks + lows). A
    summary counts its extrema among its rows, peaks + lows <= rows, and
    every summary the aggregation builds does; such a summary with no rows
    counts no extremum and is never actionable. *)
Theorem actionable_rule (rec : Summary) :
  (Z.of_nat (rows rec) < 2 ^ 49)%Z ->
  (Z.of_nat (peaks rec + lows rec) < 2 ^ 49)%Z ->
  (actionable rec = true <-> (rows rec < 5 * (peaks rec + lows rec))%nat)
  /\ ((peaks rec + lows rec <= rows rec)%nat ->
      rows rec = 0%nat -> actionable rec = false)
  /\ (forall (sort_values : list Row -> list Row) (df_filtered : list Row)
             (std_factor : float) (selected_kpis : list string),
        In rec (kpi_summary sort_values df_filtered std_factor selected_kpis) ->
        (peaks rec + lows rec <= rows rec)%nat /\ (1 <= rows rec)%nat).
Proof.
  intros Hr Hc. split; [|split].
  - exact (above_ratio_exact (peaks rec + lows rec) (rows rec) Hr Hc).
  - intros Hwf E. apply no_extrema_not_actionable. lia.
  - intros sort_values df_filtered std_factor selected_kpis Hin.
    destruct (summary_row_counts _ _ _ _ _ Hin) as [H1 H2]. lia.
Qed.

(** one peak and one low in five rows: 2 > 1.0 *)
Lemma actionable_rule_witness :
  actionable (mkSummary "doorfriction" 1 1 1 5) = true.
Proof.
  apply (proj1 (actionable_rule (mkSummary "doorfriction" 1 1 1 5)
                  ltac:(reflexivity) ltac:(reflexivity))).
  simpl. lia.
Defined.

(** X10. Every row of the report comes from a group with at least three
    rows and at least one extremum: groups of one or two rows are never
    reported, whatever their values. *)
Theorem report_needs_three_rows (sort_values : list Row -> list Row)
    (df_filtered : list Row) (std_factor : float) (selected_kpis : list string) :
  let kpi_summary :=
    kpi_summary sort_values df_filtered std_factor selected_kpis in
  Forall (fun row => exists rec,
            In rec kpi_summary /\ row = insight rec
            /\ (3 <= rows rec)%nat
            /\ (1 <= peaks rec + lows rec <= rows rec - 2)%nat)
    (report_rows kpi_summary).
Proof.
  intros out. apply List.Forall_forall. intros row Hrow.
  unfold report_rows in Hrow. rewrite report_rows_acc in Hrow.
  cbn [app] in Hrow. apply in_map_iff in Hrow as (rec & <- & Hrec).
  apply filter_In in Hrec as [Hin Hact].
  exists rec. split; [exact Hin|]. split; [reflexivity|].
  destruct (summary_row_counts _ _ _ _ _ Hin) as [H1 H2].
  destruct (Nat.eq_dec (peaks rec + lows rec) 0) as [E|E].
  - rewrite (no_extrema_not_actionable rec E) in Hact. discriminate.
  - lia.
Qed.

(** ** Every row is counted once *)

Lemma filter_disjoint_length {A : Type} (f g : A -> bool) (l : list A) :
  (forall x, f x = true -> g x = false) ->
  length (List.filter (fun x => f x || g x) l)
  = (length (List.filter f l) + length (List.filter g l))%nat.
Proof.
  intros Hex. induction l as [|x l IH]; cbn [List.filter]; [reflexivity|].
  destruct (f x) eqn:Ef; cbn [orb].
  - rewrite (Hex x Ef). cbn [length]. lia.
  - destruct (g x); cbn [length]; lia.
Qed.

(** the groups of a list under a key, one per listed key value *)
Lemma filter_partition_length {A K : Type} (eqb : K -> K -> bool)
    (key : A -> K) (keys : list K) (l : list A) :
  (forall x y, eqb x y = true <-> x = y) ->
  List.NoDup keys ->
  list_sum (map (fun k => length (List.filter (fun r => eqb (key r) k) l)) keys)
  = length (List.filter (fun r => existsb (eqb (key r)) keys) l).
Proof.
  intros Heqb. induction 1 as [|k keys Hk Hnd IH]; cbn [map existsb].
  - now rewrite filter_all_false.
  - change (list_sum (?a :: ?r)) with (a + list_sum r)%nat.
    rewrite IH. symmetry. apply filter_disjoint_length.
    intros r E. apply Heqb in E. subst k.
    destruct (existsb (eqb (key r)) keys) eqn:Ex; [|reflexivity].
    apply existsb_exists in Ex as (k & Hin & E). apply Heqb in E. now subst k.
Qed.

Lemma filter_all_true {A : Type} (f : A -> bool) (l : list A) :
  (forall x, In x l -> f x = true) -> List.filter f l = l.
Proof.
  induction l as [|x l IH]; intros H; cbn [List.filter]; [reflexivity|].
  rewrite (H x (or_introl eq_refl)). f_equal. apply IH.
  intros y Hy. apply H. now right.
Qed.

Lemma list_sum_flat_map {A B : Type} (g : B -> nat) (f : A -> list B)
    (l : list A) :
  list_sum (map g (flat_map f l))
  = list_sum (map (fun a => list_sum (map g (f a))) l).
Proof.
  induction l as [|a l IH]; cbn [flat_map map]; [reflexivity|].
  change (list_sum (?a :: ?r)) with (a + list_sum r)%nat.
  now rewrite map_app, list_sum_app, IH.
Qed.

Section AggregateTotal.

Variable sort_values : list Row -> list Row.
Hypothesis sort_values_perm : forall df, sort_values df ≡ₚ df.
Variable df_filtered : list Row.
Variable std_factor : float.

(** the floors of one KPI split its rows *)
Lemma rows_of_kpi_split (kpi_name : string) :
  list_sum (map (fun fl => length (group_rows df_filtered kpi_name fl))
              (floors_of df_filtered kpi_name))
  = length (rows_of_kpi df_filtered kpi_name).
Proof.
  unfold group_rows.
  rewrite (filter_partition_length Z.eqb floor) by
    (apply Z.eqb_eq || (eapply StronglySorted_irrefl_NoDup;
       [intros x; apply Z.lt_irrefl | apply sorted_unique_increasing])).
  f_equal. apply filter_all_true. intros r Hr.
  apply existsb_exists. exists (floor r). split; [|apply Z.eqb_refl].
  unfold floors_of. apply sorted_In, unique_In, in_map, Hr.
Qed.

Lemma total_rows_selected (selected_kpis : list string) :
  List.NoDup (map lower selected_kpis) ->
  total_rows (kpi_summary sort_values df_filtered std_factor selected_kpis)
  = length (List.filter
              (fun r => str_isin (lower (ckpi r)) (map lower selected_kpis))
              df_filtered).
Proof.
  intros Hnd. unfold total_rows, str_isin.
  rewrite (kpi_summary_spec _ sort_values_perm), list_sum_flat_map.
  rewrite <- (filter_partition_length String.eqb (fun r => lower (ckpi r)))
    by (apply String.eqb_eq || exact Hnd).
  rewrite map_map. f_equal. apply map_ext. intros k.
  fold (rows_of_kpi df_filtered k).
  rewrite <- rows_of_kpi_split, map_map. f_equal.
  apply map_ext. intros fl. now apply summary_of_rows.
Qed.

End AggregateTotal.

(** X11. No row is lost and none is counted twice: when the lower-cased
    names of the selection are distinct, the row counts of the summaries add
    up to the number of filtered rows whose lower-cased KPI name is the
    lower-cased form of a selected name. *)
Theorem kpi_summary_total_rows (sort_values : list Row -> list Row)
    (df_filtered : list Row) (std_factor : float) (selected_kpis : list string) :
  (forall df, sort_values df ≡ₚ df) ->
  List.NoDup (map lower selected_kpis) ->
  total_rows (kpi_summary sort_values df_filtered std_factor selected_kpis)
  = length (List.filter
              (fun r => str_isin (lower (ckpi r)) (map lower selected_kpis))
              df_filtered).
Proof. intros Hperm Hnd. now apply total_rows_selected. Qed.

Lemma kpi_summary_total_rows_witness :
  total_rows (kpi_summary sort_by_date example_df 1%float example_selection)
  = 4%nat.
Proof.
  rewrite (kpi_summary_total_rows sort_by_date example_df 1%float
             example_selection sort_by_date_perm).
  - reflexivity.
  - unfold example_selection.
    constructor; [|constructor; [|constructor]]; simpl; intuition discriminate.
Defined.

(** ** The filters *)

Lemma isin_In (x : Z) (values : list Z) : isin x values = true <-> In x values.
Proof.
  unfold isin. rewrite existsb_exists. split.
  - intros (y & Hy & E). apply Z.eqb_eq in E. now subst y.
  - intros H. exists x. split; [exact H|apply Z.eqb_refl].
Qed.

Lemma str_isin_In (x : string) (values : list string) :
  str_isin x values = true <-> In x values.
Proof.
  unfold str_isin. rewrite existsb_exists. split.
  - intros (y & Hy & E). apply String.eqb_eq in E. now subst y.
  - intros H. exists x. split; [exact H|apply String.eqb_refl].
Qed.

Section ApplyFiltersFacts.

Variables selected_eq selected_floors : list Z.
Variable selected_kpis : list string.
Variables start_date end_date : Z.

Lemma passes_Some (r : RawRow) (row : Row) :
  passes selected_eq selected_floors selected_kpis start_date end_date r
  = Some row ->
  (raw_eq r = Some (eq_id row) /\ raw_floor r = Some (floor row)
   /\ raw_ckpi r = Some (ckpi row)
   /\ raw_date r = Some (ckpi_statistics_date row) /\ raw_ave r = ave row)
  /\ In (eq_id row) selected_eq
  /\ In (floor row) selected_floors
  /\ In (lower (ckpi row)) (map lower selected_kpis)
  /\ (start_date <= dt_date (ckpi_statistics_date row) <= end_date)%Z.
Proof.
  unfold passes.
  destruct (raw_eq r) as [e|]; [|discriminate].
  destruct (raw_floor r) as [fl|]; [|discriminate].
  destruct (raw_ckpi r) as [k|]; [|discriminate].
  destruct (raw_date r) as [d|]; [|discriminate].
  destruct (_ && _) eqn:E; [|discriminate]. intros [= <-]. cbn.
  rewrite !andb_true_iff, !Z.leb_le, !isin_In, str_isin_In in E.
  intuition.
Qed.

Lemma passes_complete (r : RawRow) (e fl d : Z) (k : string) :
  raw_eq r = Some e -> raw_floor r = Some fl -> raw_ckpi r = Some k ->
  raw_date r = Some d ->
  In e selected_eq -> In fl selected_floors ->
  In (lower k) (map lower selected_kpis) ->
  (start_date <= dt_date d <= end_date)%Z ->
  passes selected_eq selected_floors selected_kpis start_date end_date r
  = Some (mkRow d (raw_ave r) k fl e).
Proof.
  intros H1 H2 H3 H4 He Hfl Hk Hd. unfold passes. rewrite H1, H2, H3, H4.
  apply isin_In in He, Hfl. apply str_isin_In in Hk. rewrite He, Hfl, Hk.
  destruct (Z.leb_spec start_date (dt_date d)); [|lia].
  destruct (Z.leb_spec (dt_date d) end_date); [reflexivity|lia].
Qed.

Lemma apply_filters_In (df : list RawRow) (row : Row) :
  In row (apply_filters selected_eq selected_floors selected_kpis
            start_date end_date df)
  <-> exists r, In r df
        /\ passes selected_eq selected_floors selected_kpis
             start_date end_date r = Some row.
Proof.
  unfold apply_filters. rewrite <- list_elem_of_In, list_elem_of_omap.
  split; intros (r & Hr & H); exists r; split; auto;
    now apply list_elem_of_In.
Qed.

End ApplyFiltersFacts.

(** X12. The filters and the aggregation together: when the lower-cased
    names of the selection are distinct, the row counts of the summaries add
    up to the number of rows that passed the filters, and every summary is
    for a selected KPI and a selected floor. *)
Theorem filtered_rows_all_summarised (sort_values : list Row -> list Row)
    (selected_eq selected_floors : list Z) (selected_kpis : list string)
    (start_date end_date : Z) (df : list RawRow) (std_factor : float) :
  (forall df, sort_values df ≡ₚ df) ->
  List.NoDup (map lower selected_kpis) ->
  let df_filtered :=
    apply_filters selected_eq selected_floors selected_kpis
      start_date end_date df in
  let kpi_summary :=
    kpi_summary sort_values df_filtered std_factor selected_kpis in
  total_rows kpi_summary = length df_filtered
  /\ Forall (fun rec => In (kpi rec) selected_kpis
                        /\ In (sfloor rec) selected_floors) kpi_summary.
Proof.
  intros Hperm Hnd df_filtered out. split.
  - unfold out. rewrite (total_rows_selected _ Hperm) by exact Hnd.
    f_equal. apply filter_all_true. intros row Hrow.
    apply apply_filters_In in Hrow as (r & _ & Hr).
    apply passes_Some in Hr. apply str_isin_In. tauto.
  - apply List.Forall_forall. intros rec Hrec.
    assert (In (group_key rec) (map group_key out)) as Hkey by now apply in_map.
    unfold out in Hkey. rewrite (kpi_summary_keys _ Hperm) in Hkey.
    apply in_flat_map in Hkey as (k & Hk & Hin).
    apply in_map_iff in Hin as (fl & E & Hfl).
    unfold group_key in E. injection E as <- <-. split; [exact Hk|].
    apply (floors_of_In) in Hfl as (row & Hrow & _ & <-).
    apply apply_filters_In in Hrow as (r & _ & Hr).
    apply passes_Some in Hr. tauto.
Qed.

Lemma filtered_rows_all_summarised_witness :
  total_rows
    (kpi_summary sort_by_date
       (apply_filters [7%Z] [1%Z; 2%Z] example_selection 0 10
          [ mkRawRow (Some 86400000000000%Z) 38%float (Some "DoorFriction"%string)
              (Some 1%Z) (Some 7%Z);
            mkRawRow None 40%float (Some "doorfriction"%string)
              (Some 1%Z) (Some 7%Z);
            mkRawRow (Some 172800000000000%Z) 0.5%float
              (Some "lockhooktime"%string) (Some 2%Z) (Some 7%Z);
            mkRawRow (Some 172800000000000%Z) 0.5%float
              (Some "lockHookTime"%string) (Some 3%Z) (Some 7%Z) ])
       1%float example_selection)
  = 2%nat.
Proof.
  refine (eq_trans (proj1 (filtered_rows_all_summarised sort_by_date
            [7%Z] [1%Z; 2%Z] example_selection 0 10 _ 1%float
            sort_by_date_perm _)) _).
  - unfold example_selection.
    constructor; [|constructor; [|constructor]]; simpl; intuition discriminate.
  - reflexivity.
Defined.

Lemma passes_widen (eq1 eq2 fl1 fl2 : list Z) (k1 k2 : list string)
    (s1 s2 e1 e2 : Z) (r : RawRow) (row : Row) :
  incl eq1 eq2 -> incl fl1 fl2 -> incl (map lower k1) (map lower k2) ->
  (s2 <= s1)%Z -> (e1 <= e2)%Z ->
  passes eq1 fl1 k1 s1 e1 r = Some row -> passes eq2 fl2 k2 s2 e2 r = Some row.
Proof.
  intros Heq Hfl Hk Hs He H.
  apply passes_Some in H
    as ((H1 & H2 & H3 & H4 & H5) & Hi1 & Hi2 & Hi3 & Hd).
  destruct row as [d a k fl e]. cbn in *. subst a.
  apply passes_complete; auto. lia.
Qed.

Lemma omap_sublist {A B : Type} (f g : A -> option B) (l : list A) :
  (forall a b, f a = Some b -> g a = Some b) ->
  sublist (omap f l) (omap g l).
Proof.
  intros H. induction l as [|a l IH]; cbn [omap list_omap]; [constructor|].
  destruct (f a) as [b|] eqn:E.
  - rewrite (H a b E). now constructor.
  - destruct (g a); [now constructor|exact IH].
Qed.

Lemma omap_none {A B : Type} (f : A -> option B) (l : list A) :
  (forall a, f a = None) -> omap f l = [].
Proof.
  intros H. induction l as [|a l IH]; cbn [omap list_omap]; [reflexivity|].
  now rewrite H.
Qed.

Lemma passes_empty_cell (selected_eq selected_floors : list Z)
    (selected_kpis : list string) (start_date end_date : Z) (r : RawRow) :
  raw_eq r = None \/ raw_floor r = None \/ raw_ckpi r = None
  \/ raw_date r = None ->
  passes selected_eq selected_floors selected_kpis start_date end_date r = None.
Proof.
  unfold passes.
  destruct (raw_eq r), (raw_floor r), (raw_ckpi r), (raw_date r);
    try reflexivity.
  intros [H|[H|[H|H]]]; discriminate.
Qed.

(** X13. Widening a filter never hides a row and never reorders the table:
    with more equipment, more floors, more KPI names (compared in lower
    case) or a wider date range, the rows that passed before still pass, in
    the same order. A row with an empty equipment, floor, KPI or date cell
    never passes: the filtered table is the same with and without it. *)
Theorem apply_filters_widen (eq1 eq2 fl1 fl2 : list Z) (k1 k2 : list string)
    (s1 s2 e1 e2 : Z) (df : list RawRow) :
  incl eq1 eq2 -> incl fl1 fl2 -> incl (map lower k1) (map lower k2) ->
  (s2 <= s1)%Z -> (e1 <= e2)%Z ->
  sublist (apply_filters eq1 fl1 k1 s1 e1 df) (apply_filters eq2 fl2 k2 s2 e2 df)
  /\ (forall (pre post : list RawRow) (r : RawRow),
        raw_eq r = None \/ raw_floor r = None \/ raw_ckpi r = None
        \/ raw_date r = None ->
        apply_filters eq2 fl2 k2 s2 e2 (pre ++ r :: post)
        = apply_filters eq2 fl2 k2 s2 e2 (pre ++ post)).
Proof.
  intros Heq Hfl Hk Hs He. split.
  - apply omap_sublist. intros r row. now apply passes_widen.
  - intros pre post r Hr. unfold apply_filters.
    rewrite !omap_app. f_equal. cbn [omap list_omap].
    now rewrite (passes_empty_cell _ _ _ _ _ r Hr).
Qed.

Lemma apply_filters_widen_witness :
  sublist
    (apply_filters [7%Z] [1%Z] ["doorfriction"%string] 1 1
       [ mkRawRow (Some 86400000000000%Z) 38%float (Some "DoorFriction"%string)
           (Some 1%Z) (Some 7%Z) ])
    (apply_filters [7%Z; 8%Z] [1%Z; 2%Z] ["DOORFRICTION"%string] 0 2
       [ mkRawRow (Some 86400000000000%Z) 38%float (Some "DoorFriction"%string)
           (Some 1%Z) (Some 7%Z) ]).
Proof.
  apply (apply_filters_widen [7%Z] [7%Z; 8%Z] [1%Z] [1%Z; 2%Z]
           ["doorfriction"%string] ["DOORFRICTION"%string] 1 0 1 2).
  - intros x [<-|[]]. now left.
  - intros x [<-|[]]. now left.
  - intros x [<-|[]]. now left.
  - lia.
  - lia.
Defined.

(** X14. The "No data after filters" stop: with no equipment, no floor or no
    KPI selected, or with a date range that ends before it starts, no row
    passes, whatever the table holds. *)
Theorem apply_filters_nothing_selected (selected_eq selected_floors : list Z)
    (selected_kpis : list string) (start_date end_date : Z) (df : list RawRow) :
  apply_filters [] selected_floors selected_kpis start_date end_date df = []
  /\ apply_filters selected_eq [] selected_kpis start_date end_date df = []
  /\ apply_filters selected_eq selected_floors [] start_date end_date df = []
  /\ ((end_date < start_date)%Z ->
      apply_filters selected_eq selected_floors selected_kpis
        start_date end_date df = []).
Proof.
  repeat split; [| | |intros Hd]; apply omap_none; intros r;
    destruct (passes _ _ _ _ _ r) as [row|] eqn:E; try reflexivity;
    apply passes_Some in E as (_ & H1 & H2 & H3 & H4);
    solve [destruct H1 | destruct H2 | destruct H3 | lia].
Qed.

(** ** The required columns *)

Lemma cols_lower_snoc (columns : list string) (c : string) :
  cols_lower (columns ++ [c]) = <[lower c := c]> (cols_lower columns).
Proof. unfold cols_lower. now rewrite fold_left_app. Qed.

Lemma cols_lower_None (columns : list string) (k : string) :
  cols_lower columns !! k = None -> Forall (fun c => lower c <> k) columns.
Proof.
  induction columns as [|c0 cs IH] using rev_ind; intros H; [constructor|].
  rewrite cols_lower_snoc in H.
  destruct (decide (lower c0 = k)) as [E|E].
  - subst k. now rewrite lookup_insert_eq in H.
  - rewrite lookup_insert_ne in H by exact E.
    apply Forall_app. split; [now apply IH|]. now repeat constructor.
Qed.

(** the column a lower-cased name is bound to is the last one that spells it *)
Lemma cols_lower_Some (columns : list string) (k c : string) :
  cols_lower columns !! k = Some c ->
  exists pre post, columns = pre ++ c :: post /\ lower c = k
                   /\ Forall (fun c' => lower c' <> k) post.
Proof.
  induction columns as [|c0 cs IH] using rev_ind; intros H.
  - unfold cols_lower in H. cbn in H. now rewrite lookup_empty in H.
  - rewrite cols_lower_snoc in H.
    destruct (decide (lower c0 = k)) as [E|E].
    + subst k. rewrite lookup_insert_eq in H. injection H as <-.
      exists cs, []. repeat split. constructor.
    + rewrite lookup_insert_ne in H by exact E.
      destruct (IH H) as (pre & post & -> & Hk & Hpost).
      exists pre, (post ++ [c0]). rewrite <- app_assoc. repeat split; auto.
      apply Forall_app. split; [exact Hpost|]. now repeat constructor.
Qed.

Lemma find_first {A : Type} (f : A -> bool) (l : list A) (x : A) :
  List.find f l = Some x ->
  exists pre post, l = pre ++ x :: post /\ f x = true
                   /\ Forall (fun y => f y = false) pre.
Proof.
  induction l as [|a l IH]; cbn [List.find]; [discriminate|].
  destruct (f a) eqn:E.
  - intros [= <-]. exists [], l. repeat split; auto.
  - intros H. destruct (IH H) as (pre & post & -> & Hx & Hpre).
    exists (a :: pre), post. repeat split; auto.
Qed.

(** X15. The column check, for a table whose column names are ASCII
    strings: the subscripts [cols_lower[c]] never raise KeyError; the script
    stops on the first required name that no column spells (in any casing),
    all required names before it being present; and otherwise each required
    name is bound to a column of the table that spells it in some casing,
    the last such column when several do. *)
Theorem find_columns_spec (columns : list string) :
  Forall (fun c => isascii c = true) columns ->
  match find_columns columns with
  | KeyError => False
  | Stop req =>
    exists pre post,
      required = pre ++ req :: post
      /\ Forall (fun c => lower c <> req) columns
      /\ Forall (fun q => exists c, In c columns /\ lower c = q) pre
  | Resolved cols =>
    Forall2 (fun req c =>
               exists pre post, columns = pre ++ c :: post /\ lower c = req
                                /\ Forall (fun c' => lower c' <> req) post)
      required cols
  end.
Proof.
  intros _. unfold find_columns.
  destruct (List.find _ required) as [req|] eqn:F.
  - apply find_first in F as (pre & post & E & Hreq & Hpre).
    exists pre, post. split; [exact E|]. split.
    + apply cols_lower_None. now destruct (cols_lower columns !! req).
    + eapply Forall_impl; [exact Hpre|]. intros q Hq. cbn beta in Hq.
      destruct (cols_lower columns !! q) as [c|] eqn:Ec; [|discriminate].
      apply cols_lower_Some in Ec as (p1 & p2 & -> & Hl & _).
      exists c. split; [|exact Hl]. apply in_elt.
  - destruct (mapM _ required) as [cols|] eqn:M.
    + apply mapM_Some in M. eapply Forall2_impl; [exact M|].
      intros q c. apply cols_lower_Some.
    + assert (is_Some (mapM (fun c => cols_lower columns !! c) required)) as Hs.
      { apply mapM_is_Some, Forall_forall. intros q Hq.
        apply list_elem_of_In in Hq.
        pose proof (find_none _ _ F q Hq) as Hn. cbn beta in Hn. cbn.
        destruct (cols_lower columns !! q); [eauto|discriminate]. }
      rewrite M in Hs. now destruct Hs.
Qed.

(** a table with a column in capitals and two spellings of [ave]: the five
    names are bound, [ave] to the later column *)
Lemma find_columns_spec_witness :
  Forall2 (fun req c =>
             exists pre post,
               [ "CKPI_Statistics_Date"; "Ave"; "ckpi"; "Floor"; "EQ";
                 "AVE" ]%string = pre ++ c :: post
               /\ lower c = req /\ Forall (fun c' => lower c' <> req) post)
    required
    [ "CKPI_Statistics_Date"; "AVE"; "ckpi"; "Floor"; "EQ" ]%string.
Proof.
  exact (find_columns_spec
           [ "CKPI_Statistics_Date"; "Ave"; "ckpi"; "Floor"; "EQ"; "AVE" ]%string
           ltac:(repeat constructor)).
Defined.

(** ** The reader of the uploaded file *)

Lemma append_cons (c : ascii) (a b : string) :
  String c a +:+ b = String c (a +:+ b).
Proof. reflexivity. Qed.

Lemma append_nil (b : string) : ""%string +:+ b = b.
Proof. reflexivity. Qed.

Lemma lower_app (a b : string) : lower (a +:+ b) = lower a +:+ lower b.
Proof.
  induction a as [|c a IH]; [reflexivity|].
  cbn [lower]. rewrite !append_cons. cbn [lower]. now rewrite IH.
Qed.

Lemma string_app_assoc (a b c : string) : (a +:+ b) +:+ c = a +:+ (b +:+ c).
Proof.
  induction a as [|x a IH]; [reflexivity|].
  rewrite !append_cons. now rewrite IH.
Qed.

Lemma string_app_last (a b : string) (c1 c2 : ascii) :
  a +:+ String c1 "" = b +:+ String c2 "" -> c1 = c2.
Proof.
  revert b. induction a as [|x a IH]; intros [|y b];
    rewrite ?append_cons, ?append_nil; intros H; injection H; clear H.
  - auto.
  - intros H2 _. destruct b; rewrite ?append_cons, ?append_nil in H2;
      discriminate.
  - intros H2 _. destruct a; rewrite ?append_cons, ?append_nil in H2;
      discriminate.
  - intros H2 _. now apply (IH b).
Qed.

Lemma endswith_true (s suffix : string) :
  endswith s suffix = true -> exists pre, s = pre +:+ suffix.
Proof.
  induction s as [|c s IH]; cbn [endswith]; rewrite orb_true_iff;
    intros [H|H]; try discriminate.
  - apply String.eqb_eq in H. now exists ""%string.
  - apply String.eqb_eq in H. now exists ""%string.
  - destruct (IH H) as [pre ->]. exists (String c pre); now rewrite append_cons.
Qed.

Lemma endswith_app (a suffix : string) : endswith (a +:+ suffix) suffix = true.
Proof.
  induction a as [|c a IH]; rewrite ?append_cons, ?append_nil.
  - destruct suffix; cbn [endswith]; now rewrite String.eqb_refl.
  - cbn [endswith]. rewrite IH. apply orb_true_r.
Qed.

(** a name and a suffix with different last characters *)
Lemma endswith_differs (a s1 s2 : string) (c1 c2 : ascii) :
  c1 <> c2 ->
  endswith (a +:+ (s1 +:+ String c1 "")) (s2 +:+ String c2 "") = false.
Proof.
  intros Hc. destruct (endswith _ _) eqn:E; [|reflexivity].
  apply endswith_true in E as [pre E].
  rewrite <- !string_app_assoc in E. apply string_app_last in E. contradiction.
Qed.

(** X16. The reader follows the extension of the uploaded name in any
    casing: a name that ends in .xlsx is read by openpyxl, .xls by xlrd,
    .csv as CSV and .json as JSON; the test for .xlsx does not capture .xls
    names and the other way round. *)
Theorem read_file_by_extension (base ext : string) :
  (lower ext = ".xlsx"%string -> read_file (base +:+ ext) = read_excel_openpyxl)
  /\ (lower ext = ".xls"%string -> read_file (base +:+ ext) = read_excel_xlrd)
  /\ (lower ext = ".csv"%string -> read_file (base +:+ ext) = read_csv)
  /\ (lower ext = ".json"%string -> read_file (base +:+ ext) = read_json).
Proof.
  unfold read_file. rewrite lower_app.
  set (name := lower base).
  assert (forall (s1 s2 whole suffix : string) (c1 c2 : ascii),
             s1 +:+ String c1 "" = whole -> s2 +:+ String c2 "" = suffix ->
             c1 <> c2 -> endswith (name +:+ whole) suffix = false) as differs
    by (intros s1 s2 whole suffix c1 c2 <- <-; apply endswith_differs).
  repeat split; intros ->.
  - now rewrite endswith_app.
  - rewrite (differs ".xl"%string ".xls"%string _ ".xlsx"%string "s"%char "x"%char)
      by (reflexivity || discriminate).
    now rewrite endswith_app.
  - rewrite (differs ".cs"%string ".xls"%string _ ".xlsx"%string "v"%char "x"%char)
      by (reflexivity || discriminate).
    rewrite (differs ".cs"%string ".xl"%string _ ".xls"%string "v"%char "s"%char)
      by (reflexivity || discriminate).
    now rewrite endswith_app.
  - rewrite (differs ".jso"%string ".xls"%string _ ".xlsx"%string "n"%char "x"%char)
      by (reflexivity || discriminate).
    rewrite (differs ".jso"%string ".xl"%string _ ".xls"%string "n"%char "s"%char)
      by (reflexivity || discriminate).
    rewrite (differs ".jso"%string ".cs"%string _ ".csv"%string "n"%char "v"%char)
      by (reflexivity || discriminate).
    now rewrite endswith_app.
Qed.

(** ** Colours, date presets and the order of the report *)

(** X17. The colour of a trace is always one of the eight palette colours,
    and two floors of a chart get the same colour exactly when their
    positions differ by a multiple of eight; the first eight floors have
    eight different colours. *)
Theorem color_cycle_period (i j : nat) :
  In (color_cycle i) palette
  /\ (color_cycle i = color_cycle j <-> i mod 8 = j mod 8).
Proof.
  unfold color_cycle. change (length palette) with 8%nat.
  pose proof (Nat.mod_upper_bound i 8 ltac:(lia)) as Hi.
  pose proof (Nat.mod_upper_bound j 8 ltac:(lia)) as Hj.
  set (a := i mod 8) in *. set (b := j mod 8) in *. clearbody a b.
  split.
  - apply nth_In. exact Hi.
  - do 8 (destruct a as [|a]; [do 8 (destruct b as [|b];
        [cbn; split; (reflexivity || discriminate)|]); lia|]).
    lia.
Qed.

(** X18. The presets of the date box are nested: every preset other than
    "Custom" gives a range that ends today and starts at least a week
    before, and a preset listed later shows every row an earlier preset
    shows, in the same order. *)
Theorem preset_ranges_nested (i j : nat) (p q : string) (today : Z)
    (custom : Z * Z) (selected_eq selected_floors : list Z)
    (selected_kpis : list string) (df : list RawRow) :
  preset_choices !! i = Some p -> preset_choices !! j = Some q ->
  (1 <= i <= j)%nat ->
  snd (date_range p today custom) = today
  /\ (fst (date_range p today custom) <= today - 7)%Z
  /\ sublist
       (apply_filters selected_eq selected_floors selected_kpis
          (fst (date_range p today custom)) (snd (date_range p today custom)) df)
       (apply_filters selected_eq selected_floors selected_kpis
          (fst (date_range q today custom)) (snd (date_range q today custom)) df).
Proof.
  intros Hp Hq Hij.
  assert (forall k s, preset_choices !! k = Some s -> (1 <= k)%nat ->
            exists days, date_range s today custom = ((today - days)%Z, today)
              /\ ((days = 7)%Z /\ k = 1%nat \/ (days = 30)%Z /\ k = 2%nat
                  \/ (days = 90)%Z /\ k = 3%nat \/ (days = 180)%Z /\ k = 4%nat
                  \/ (days = 365)%Z /\ k = 5%nat)) as Hrange.
  { intros k s Hs Hk.
    do 6 (destruct k as [|k];
          [first [lia | injection Hs as <-; eexists;
                        split; [reflexivity|tauto]]|]).
    discriminate. }
  destruct (Hrange i p Hp ltac:(lia)) as (d1 & -> & H1).
  destruct (Hrange j q Hq ltac:(lia)) as (d2 & -> & H2).
  cbn [fst snd]. split; [reflexivity|]. split; [lia|].
  apply omap_sublist. intros r row.
  apply passes_widen; try apply incl_refl; lia.
Qed.

Lemma preset_ranges_nested_witness :
  sublist
    (apply_filters [7%Z] [1%Z] ["doorfriction"%string] (100 - 7) 100
       [ mkRawRow (Some 8553600000000000%Z) 38%float
           (Some "doorfriction"%string) (Some 1%Z) (Some 7%Z) ])
    (apply_filters [7%Z] [1%Z] ["doorfriction"%string] (100 - 90) 100
       [ mkRawRow (Some 8553600000000000%Z) 38%float
           (Some "doorfriction"%string) (Some 1%Z) (Some 7%Z) ]).
Proof.
  apply (preset_ranges_nested 1 3 "Past Week" "Past 3 Months" 100 (0, 0)%Z
           [7%Z] [1%Z] ["doorfriction"%string] _ eq_refl eq_refl).
  lia.
Defined.

Lemma StronglySorted_map_filter {A B : Type} (R : B -> B -> Prop) (f : A -> B)
    (keep : A -> bool) (l : list A) :
  StronglySorted R (map f l) -> StronglySorted R (map f (List.filter keep l)).
Proof.
  induction l as [|a l IH]; cbn [map List.filter]; [constructor|].
  intros H. apply StronglySorted_inv in H as [Hs Hall].
  destruct (keep a); [|now apply IH].
  cbn [map]. constructor; [now apply IH|].
  rewrite List.Forall_forall in *. intros y Hy.
  apply Hall. apply in_map_iff in Hy as (x & <- & Hx).
  apply in_map. now apply filter_In in Hx as [Hx _].
Qed.

(** X19. The report follows the selection: its rows come in the order of
    the selected KPIs and by ascending floor inside one KPI, and no (KPI,
    floor) pair has two rows. *)
Theorem report_rows_ordered (sort_values : list Row -> list Row)
    (df_filtered : list Row) (std_factor : float) (selected_kpis : list string) :
  (forall df, sort_values df ≡ₚ df) ->
  List.NoDup selected_kpis ->
  let report :=
    report_rows (kpi_summary sort_values df_filtered std_factor selected_kpis) in
  StronglySorted (key_before selected_kpis)
    (map (fun row => (KPI row, Floor row)) report)
  /\ List.NoDup (map (fun row => (KPI row, Floor row)) report).
Proof.
  intros Hperm Hnd report.
  assert (StronglySorted (key_before selected_kpis)
            (map (fun row => (KPI row, Floor row)) report)) as Hs.
  { unfold report, report_rows. rewrite report_rows_acc. cbn [app].
    rewrite map_map.
    apply (StronglySorted_map_filter _ (fun rec => (KPI (insight rec), Floor (insight rec)))).
    change (fun rec => (KPI (insight rec), Floor (insight rec))) with group_key.
    rewrite (kpi_summary_keys _ Hperm).
    apply (keys_sorted (floors_of df_filtered) selected_kpis []).
    intros k. apply sorted_unique_increasing. }
  split; [exact Hs|].
  eapply StronglySorted_irrefl_NoDup; [|exact Hs].
  intros x. now apply key_before_irrefl.
Qed.

Lemma report_rows_ordered_witness :
  List.NoDup
    (map (fun row => (KPI row, Floor row))
       (report_rows
          (kpi_summary sort_by_date example_df 1%float example_selection))).
Proof.
  refine (proj2 (report_rows_ordered sort_by_date example_df 1%float
                   example_selection sort_by_date_perm _)).
  unfold example_selection.
  constructor; [|constructor; [|constructor]]; simpl; intuition discriminate.
Defined.
